(** * watcher.py: the Nginx log watcher, embedded and verified

    A shallow embedding of [src/watcher.py] (class [LogWatcher]): the entry
    parser, the failover detector, the sliding-window error-rate monitor, the
    cooldown registry and the per-line ingestion loop.

    Conventions of the embedding.
    - A Python [str] is a [string]; every [ascii] stands for the code point
      of the same number, so lines range over U+0000..U+00FF.
    - Python [int] is [Z] (a length or a count is [nat]).
    - [time.time()] is a rational number of seconds: the field [clock] of
      the watcher's world.  The environment moves the clock between two
      lines; the subtraction of two readings is exact.
    - The error rate and its threshold are IEEE binary64 numbers, computed
      with the kernel's primitive floats exactly as CPython computes them.
    - Everything the program prints or posts is appended to [trace]. *)

From Stdlib Require Import Ascii String ZArith QArith Floats Uint63 Lia Lqa.
From stdpp Require Import gmap strings list.

Local Open Scope string_scope.
Local Open Scope list_scope.

(** ** The Python runtime the watcher relies on *)

Module Py.

Inductive exn : Type :=
| ValueError (what : string)
| OverflowError (what : string).

Inductive result (A : Type) : Type :=
| Ok (a : A)
| Raise (e : exn).
Arguments Ok {A} a.
Arguments Raise {A} e.

Definition rbind {A B} (r : result A) (k : A -> result B) : result B :=
  match r with
  | Ok a => k a
  | Raise e => Raise e
  end.

(** [try: body  except Exception as e: handler e] *)
Definition try_except {A} (body : result A) (handler : exn -> A) : A :=
  match body with
  | Ok a => a
  | Raise e => handler e
  end.

Definition code (c : ascii) : N := N_of_ascii c.

(** [str.isspace] on one character, which is also [\s] of [re] and the
    white space [int] and [strip] remove: U+0009..U+000D, U+001C..U+0020,
    U+0085 and U+00A0. *)
Definition is_space (c : ascii) : bool :=
  let n := code c in
  ((9 <=? n) && (n <=? 13) || (28 <=? n) && (n <=? 32)
   || (n =? 133) || (n =? 160))%N.

(** [\d] of [re], the decimal digits [int] and [float] read. *)
Definition is_digit (c : ascii) : bool :=
  let n := code c in ((48 <=? n) && (n <=? 57))%N.

Definition digit_value (c : ascii) : Z := Z.of_N (code c) - 48.

Fixpoint lstrip (s : string) : string :=
  match s with
  | EmptyString => EmptyString
  | String c r => if is_space c then lstrip r else s
  end.

Fixpoint rstrip (s : string) : string :=
  match s with
  | EmptyString => EmptyString
  | String c r =>
      match rstrip r with
      | EmptyString => if is_space c then EmptyString else String c EmptyString
      | r' => String c r'
      end
  end.

(** [s.strip()] *)
Definition strip (s : string) : string := rstrip (lstrip s).

(** [s.split(',')] *)
Fixpoint split_comma (s : string) : list string :=
  match s with
  | EmptyString => [EmptyString]
  | String c r =>
      if Ascii.eqb c "," then EmptyString :: split_comma r
      else match split_comma r with
           | h :: t => String c h :: t
           | [] => [String c EmptyString]
           end
  end.

(** The digits of a literal [digit ("_"? digit)*]; [None] when the text
    is not of that shape.  [after_digit] says that the character before was
    a digit, the only place where an underscore or the end may follow. *)
Fixpoint scan_digits (after_digit : bool) (s : string) : option (list Z) :=
  match s with
  | EmptyString => if after_digit then Some [] else None
  | String c r =>
      if is_digit c then cons (digit_value c) <$> scan_digits true r
      else if Ascii.eqb c "_" then
             if after_digit then scan_digits false r else None
           else None
  end.

Definition decimal_value (ds : list Z) : Z :=
  fold_left (fun acc d => 10 * acc + d)%Z ds 0%Z.

(** [sys.get_int_max_str_digits()], CPython's default. *)
Definition int_max_str_digits : nat := 4300.

(** The sign that may lead a literal, and the rest of it. *)
Definition split_sign (t : string) : bool * string :=
  match t with
  | String "+" r => (false, r)
  | String "-" r => (true, r)
  | _ => (false, t)
  end.

(** [int(s)] for a [str]: white space around the literal is dropped, one
    sign may lead, the digits may be grouped by single underscores. *)
Definition int (s : string) : result Z :=
  let '(negative, body) := split_sign (strip s) in
  match scan_digits false body with
  | None => Raise (ValueError "invalid literal for int() with base 10")
  | Some ds =>
      if (int_max_str_digits <? length ds)%nat
      then Raise (ValueError "Exceeds the limit for integer string conversion")
      else Ok (if negative then - decimal_value ds else decimal_value ds)%Z
  end.

Fixpoint take_while (p : ascii -> bool) (s : string) : string :=
  match s with
  | EmptyString => EmptyString
  | String c r => if p c then String c (take_while p r) else EmptyString
  end.

Fixpoint drop_while (p : ascii -> bool) (s : string) : string :=
  match s with
  | EmptyString => EmptyString
  | String c r => if p c then drop_while p r else s
  end.

Fixpoint all_chars (p : ascii -> bool) (s : string) : bool :=
  match s with
  | EmptyString => true
  | String c r => p c && all_chars p r
  end.

Definition digits_of (s : string) : list Z :=
  digit_value <$> list_ascii_of_string s.

Fixpoint pow10 (n : nat) : positive :=
  match n with
  | O => 1%positive
  | S m => (10 * pow10 m)%positive
  end.

(** [float(s)] on the texts the watcher hands it, which consist of digits
    and dots only: the literal is [digits], [digits.], [.digits] or
    [digits.digits].  The result is the exact decimal; binary64 rounds it,
    and nothing in the watcher reads the rounded value. *)
Definition float_of_digits_and_dots (s : string) : result Q :=
  let whole := take_while is_digit s in
  let rest := drop_while is_digit s in
  let bad := Raise (ValueError "could not convert string to float") in
  match rest with
  | EmptyString =>
      match whole with
      | EmptyString => bad
      | _ => Ok (inject_Z (decimal_value (digits_of whole)))
      end
  | String c frac =>
      if Ascii.eqb c "." && all_chars is_digit frac
         && negb (String.eqb whole "" && String.eqb frac "")
      then Ok (Qmake (decimal_value (digits_of (whole +:+ frac)))
                     (pow10 (String.length frac)))
      else bad
  end.

(** [bool(s)] for a [str]. *)
Definition truthy (s : string) : bool := negb (String.eqb s "").

End Py.

Import Py.

(** ** The regular expressions of [parse_log_line]

    Each [re.search] of the parser is written out as the function it
    computes: the leftmost position at which the pattern matches, and there
    the text of group 1. *)

Module Re.

(** [s] without the prefix [key], when it starts with it. *)
Fixpoint strip_prefix (key s : string) : option string :=
  match key, s with
  | EmptyString, _ => Some s
  | String k key', String c s' =>
      if Ascii.eqb k c then strip_prefix key' s' else None
  | String _ _, EmptyString => None
  end.

(** [re.match(key + "(C+)", s)] where [C] is the character class [cls]:
    the greedy [C+] takes the longest run, and needs one character. *)
Definition match_key (key : string) (cls : ascii -> bool) (s : string)
  : option string :=
  match strip_prefix key s with
  | None => None
  | Some rest =>
      match take_while cls rest with
      | EmptyString => None
      | group => Some group
      end
  end.

(** [re.search(key + "(C+)", s)]: the first suffix that matches. *)
Fixpoint search_key (key : string) (cls : ascii -> bool) (s : string)
  : option string :=
  match match_key key cls s with
  | Some group => Some group
  | None =>
      match s with
      | EmptyString => None
      | String _ r => search_key key cls r
      end
  end.

Definition non_space (c : ascii) : bool := negb (is_space c).
Definition digit_or_dot (c : ascii) : bool := is_digit c || Ascii.eqb c ".".
Definition digit_dot_comma_space (c : ascii) : bool :=
  is_digit c || Ascii.eqb c "." || Ascii.eqb c "," || is_space c.
(** The double quote, U+0022. *)
Definition dquote : ascii := ascii_of_nat 34.
Definition not_quote (c : ascii) : bool := negb (Ascii.eqb c dquote).

(** The pattern of the final status, a quoted text, one space and
    [(\d{3})], at the start of [s]: an opening quote, the characters up to
    the next quote (the only place where the class of non-quotes can stop,
    since a quote must follow), that quote, a space and three digits. *)
Definition match_status (s : string) : option string :=
  match s with
  | String q r =>
      if Ascii.eqb q dquote then
        match drop_while not_quote r with
        | String _ (String sp (String d1 (String d2 (String d3 _)))) =>
            if Ascii.eqb sp " " && is_digit d1 && is_digit d2 && is_digit d3
            then Some (String d1 (String d2 (String d3 EmptyString)))
            else None
        | _ => None
        end
      else None
  | EmptyString => None
  end.

Fixpoint search_status (s : string) : option string :=
  match match_status s with
  | Some group => Some group
  | None =>
      match s with
      | EmptyString => None
      | String _ r => search_status r
      end
  end.

(** [s] between double quotes, to write log lines down. *)
Definition quoted (s : string) : string :=
  String dquote (s +:+ String dquote EmptyString).

End Re.

(** ** The data of the watcher *)

(** The dictionary [parse_log_line] returns. *)
Record ParsedEntry : Type := {
  pool : option string;
  release : option string;
  upstream_statuses : list string;
  final_status : option Z;
  upstream : option string;
  request_time : option Q;
  upstream_response_time : option string;
  raw_line : string
}.

(** [collections.deque(maxlen=n)]: the items from the oldest to the newest. *)
Record deque (A : Type) : Type := {
  items : list A;
  maxlen : nat
}.
Arguments items {A} d.
Arguments maxlen {A} d.

(** The largest [Py_ssize_t] of a 64-bit CPython. *)
Definition ssize_t_max : Z := 2 ^ 63 - 1.

(** [deque(maxlen=n)]: the bound is first converted to a [Py_ssize_t],
    which fails outside its range, and a negative bound is then refused. *)
Definition deque_new {A} (n : Z) : result (deque A) :=
  if ((n <? - ssize_t_max - 1) || (ssize_t_max <? n))%Z
  then Raise (OverflowError "Python int too large to convert to C ssize_t")
  else if (n <? 0)%Z then Raise (ValueError "maxlen must be non-negative")
  else Ok {| items := []; maxlen := Z.to_nat n |}.

(** [d.append(x)]: the item goes to the right end, and a deque that is
    then longer than [maxlen] drops its leftmost item. *)
Definition deque_append {A} (x : A) (d : deque A) : deque A :=
  let grown := items d ++ [x] in
  {| items := if (maxlen d <? length grown)%nat then tail grown else grown;
     maxlen := maxlen d |}.

(** What an alert is about; [send_slack_alert] renders it as a message and
    a list of fields. *)
Inductive alert : Type :=
| Failover (old_pool new_pool : string)
| ErrorRate (error_rate : float) (error_count total_count : nat)
            (threshold : float) (current_pool : option string)
| Recovery (primary : string).

(** What the watcher writes to the console. *)
Inductive console_line : Type :=
| ParseFailed (e : exn)
| BaselineEstablished (first_pool : string)
| FailoverSuppressed (old_pool new_pool : string)
| AlertBlock (a : alert)
| SlackOutcome.

Inductive event : Type :=
| Stdout (l : console_line)
| SlackPost (url : string) (color : string) (a : alert).

(** The process environment after the conversions of [__init__]: the
    values of [float(os.getenv(...))], [int(os.getenv(...))] and the like,
    for an environment on which these conversions succeed. *)
Record Env : Type := {
  SLACK_WEBHOOK_URL : option string;
  ERROR_RATE_THRESHOLD : float;
  WINDOW_SIZE : Z;
  ALERT_COOLDOWN_SEC : Z;
  MAINTENANCE_MODE : bool;
  ACTIVE_POOL : string
}.

(** The object [self], with the clock it reads and the trace it leaves. *)
Record LogWatcher : Type := {
  slack_webhook_url : option string;
  error_rate_threshold : float;
  window_size : Z;
  alert_cooldown_sec : Z;
  maintenance_mode : bool;
  initial_active_pool : string;
  last_seen_pool : option string;
  request_window : deque bool;
  last_alert_times : gmap string Q;
  clock : Q;
  trace : list event
}.

Definition set_last_seen_pool (v : option string) (w : LogWatcher) : LogWatcher :=
  {| slack_webhook_url := slack_webhook_url w;
     error_rate_threshold := error_rate_threshold w;
     window_size := window_size w;
     alert_cooldown_sec := alert_cooldown_sec w;
     maintenance_mode := maintenance_mode w;
     initial_active_pool := initial_active_pool w;
     last_seen_pool := v;
     request_window := request_window w;
     last_alert_times := last_alert_times w;
     clock := clock w;
     trace := trace w |}.

Definition set_request_window (v : deque bool) (w : LogWatcher) : LogWatcher :=
  {| slack_webhook_url := slack_webhook_url w;
     error_rate_threshold := error_rate_threshold w;
     window_size := window_size w;
     alert_cooldown_sec := alert_cooldown_sec w;
     maintenance_mode := maintenance_mode w;
     initial_active_pool := initial_active_pool w;
     last_seen_pool := last_seen_pool w;
     request_window := v;
     last_alert_times := last_alert_times w;
     clock := clock w;
     trace := trace w |}.

Definition set_last_alert_times (v : gmap string Q) (w : LogWatcher) : LogWatcher :=
  {| slack_webhook_url := slack_webhook_url w;
     error_rate_threshold := error_rate_threshold w;
     window_size := window_size w;
     alert_cooldown_sec := alert_cooldown_sec w;
     maintenance_mode := maintenance_mode w;
     initial_active_pool := initial_active_pool w;
     last_seen_pool := last_seen_pool w;
     request_window := request_window w;
     last_alert_times := v;
     clock := clock w;
     trace := trace w |}.

Definition set_clock (v : Q) (w : LogWatcher) : LogWatcher :=
  {| slack_webhook_url := slack_webhook_url w;
     error_rate_threshold := error_rate_threshold w;
     window_size := window_size w;
     alert_cooldown_sec := alert_cooldown_sec w;
     maintenance_mode := maintenance_mode w;
     initial_active_pool := initial_active_pool w;
     last_seen_pool := last_seen_pool w;
     request_window := request_window w;
     last_alert_times := last_alert_times w;
     clock := v;
     trace := trace w |}.

Definition set_trace (v : list event) (w : LogWatcher) : LogWatcher :=
  {| slack_webhook_url := slack_webhook_url w;
     error_rate_threshold := error_rate_threshold w;
     window_size := window_size w;
     alert_cooldown_sec := alert_cooldown_sec w;
     maintenance_mode := maintenance_mode w;
     initial_active_pool := initial_active_pool w;
     last_seen_pool := last_seen_pool w;
     request_window := request_window w;
     last_alert_times := last_alert_times w;
     clock := clock w;
     trace := v |}.

(** ** Methods run in a state monad over the watcher *)

Definition M (A : Type) : Type := LogWatcher -> A * LogWatcher.

Definition ret {A} (a : A) : M A := fun w => (a, w).

Definition bind {A B} (m : M A) (k : A -> M B) : M B :=
  fun w => let '(a, w') := m w in k a w'.

Declare Scope watcher_scope.
Delimit Scope watcher_scope with watcher.
Notation "x <- m ;; k" := (bind m (fun x => k))
  (at level 100, m at next level, right associativity) : watcher_scope.
Notation "m ;; k" := (bind m (fun _ => k))
  (at level 100, right associativity) : watcher_scope.
Local Open Scope watcher_scope.

Definition self : M LogWatcher := fun w => (w, w).
Definition update (f : LogWatcher -> LogWatcher) : M unit := fun w => (tt, f w).
Definition emit (e : event) : M unit := update (fun w => set_trace (trace w ++ [e]) w).
Definition print (l : console_line) : M unit := emit (Stdout l).

(** [time.time()] *)
Definition time_time : M Q := fun w => (clock w, w).

(** The state a method leaves, and the value it returns. *)
Definition exec {A} (m : M A) (w : LogWatcher) : LogWatcher := snd (m w).
Definition eval {A} (m : M A) (w : LogWatcher) : A := fst (m w).

(** ** [LogWatcher.__init__] *)

Definition placeholder_webhook : string :=
  "https://hooks.slack.com/services/YOUR/WEBHOOK/URL".

(** The constructor, from the point where the variables of the environment
    have been read and converted: [env] holds the values [int], [float] and
    the comparison with [true] returned, so a variable that [int] or [float]
    refuses, which makes [__init__] raise before it builds anything, is no
    [Env] at all.  What can still fail is the window.  The start-up banner
    is not part of the trace, and the clock shows [0] until the first line
    arrives. *)
Definition LogWatcher_init (env : Env) : result LogWatcher :=
  rbind (deque_new (WINDOW_SIZE env)) (fun window =>
  Ok {| slack_webhook_url :=
          match SLACK_WEBHOOK_URL env with
          | Some url =>
              if negb (truthy url) || String.eqb url placeholder_webhook
              then None else Some url
          | None => None
          end;
        error_rate_threshold := ERROR_RATE_THRESHOLD env;
        window_size := WINDOW_SIZE env;
        alert_cooldown_sec := ALERT_COOLDOWN_SEC env;
        maintenance_mode := MAINTENANCE_MODE env;
        initial_active_pool := ACTIVE_POOL env;
        last_seen_pool := None;
        request_window := window;
        last_alert_times := ∅;
        clock := 0;
        trace := [] |}).

(** ** [parse_log_line] *)

(** A group that is absent, or the text [-], is no value. *)
Definition unless_dash (group : option string) : option string :=
  match group with
  | Some g => if String.eqb g "-" then None else Some g
  | None => None
  end.

(** The body of the [try] of [parse_log_line]. *)
Definition parse_fields (line : string) : result ParsedEntry :=
  let pool_match := Re.search_key "pool=" Re.non_space line in
  let release_match := Re.search_key "release=" Re.non_space line in
  let upstream_status_raw := Re.search_key "upstream_status=" Re.non_space line in
  let upstream_statuses :=
    match upstream_status_raw with
    | Some raw =>
        if truthy raw && negb (String.eqb raw "-") then split_comma raw else []
    | None => []
    end in
  let status_match := Re.search_status line in
  rbind (match status_match with
         | Some group => rbind (Py.int group) (fun n => Ok (Some n))
         | None => Ok None
         end) (fun final_status =>
  let upstream_match := Re.search_key "upstream=" Re.non_space line in
  let request_time_match := Re.search_key "request_time=" Re.digit_or_dot line in
  rbind (match request_time_match with
         | Some group => rbind (float_of_digits_and_dots group) (fun x => Ok (Some x))
         | None => Ok None
         end) (fun request_time =>
  let upstream_time_match :=
    Re.search_key "upstream_response_time=" Re.digit_dot_comma_space line in
  Ok {| pool := unless_dash pool_match;
        release := unless_dash release_match;
        upstream_statuses := upstream_statuses;
        final_status := final_status;
        upstream := upstream_match;
        request_time := request_time;
        upstream_response_time := upstream_time_match;
        raw_line := strip line |})).

(** [parse_log_line]: any exception of the body is printed and turned into
    [None]. *)
Definition parse_log_line (line : string) : M (option ParsedEntry) :=
  try_except
    (rbind (parse_fields line) (fun parsed => Ok (ret (Some parsed))))
    (fun e => print (ParseFailed e) ;; ret None).

(** ** The alert dispatcher *)

(** [can_send_alert] *)
Definition can_send_alert (alert_type : string) : M bool :=
  current_time <- time_time ;;
  w <- self ;;
  let last_alert_time := default 0%Q (last_alert_times w !! alert_type) in
  if Qle_bool (inject_Z (alert_cooldown_sec w)) (current_time - last_alert_time)
  then
    update (fun w => set_last_alert_times
                       (<[alert_type := current_time]> (last_alert_times w)) w) ;;
    ret true
  else ret false.

(** [send_slack_alert]: the console block, then one post when a webhook is
    configured, and the console line that tells how the post went. *)
Definition send_slack_alert (a : alert) (color : string) : M unit :=
  print (AlertBlock a) ;;
  w <- self ;;
  match slack_webhook_url w with
  | None => ret tt
  | Some url => emit (SlackPost url color a) ;; print SlackOutcome
  end.

(** [send_failover_alert] *)
Definition send_failover_alert (old_pool new_pool : string) : M unit :=
  send_slack_alert (Failover old_pool new_pool) "warning" ;;
  now <- time_time ;;
  update (fun w => set_last_alert_times
                     (<["failover" := now]> (last_alert_times w)) w).

(** [send_error_rate_alert] *)
Definition send_error_rate_alert (error_rate : float)
    (error_count total_count : nat) : M unit :=
  w <- self ;;
  send_slack_alert
    (ErrorRate error_rate error_count total_count
               (error_rate_threshold w) (last_seen_pool w))
    "danger".

(** [send_recovery_alert] *)
Definition send_recovery_alert : M unit :=
  w <- self ;;
  if bool_decide (last_seen_pool w = Some (initial_active_pool w)) then
    ok <- can_send_alert "recovery" ;;
    if ok then send_slack_alert (Recovery (initial_active_pool w)) "good"
    else ret tt
  else ret tt.

(** ** The failover detector: [check_failover] *)

Definition check_failover (new_pool : string) : M bool :=
  w <- self ;;
  match last_seen_pool w with
  | None =>
      update (set_last_seen_pool (Some new_pool)) ;;
      print (BaselineEstablished new_pool) ;;
      ret false
  | Some old_pool =>
      if negb (String.eqb new_pool old_pool) then
        update (set_last_seen_pool (Some new_pool)) ;;
        (if negb (maintenance_mode w)
         then send_failover_alert old_pool new_pool
         else print (FailoverSuppressed old_pool new_pool)) ;;
        ret true
      else ret false
  end.

(** ** The error-rate monitor: [check_error_rate] *)

Definition is_5xx (status_code : Z) : bool :=
  ((500 <=? status_code) && (status_code <? 600))%Z.

(** The [for] loop over the upstream statuses: a token [int] refuses is
    skipped, the first one in range ends the loop. *)
Fixpoint upstream_5xx (statuses : list string) : bool :=
  match statuses with
  | [] => false
  | status :: rest =>
      match Py.int status with
      | Ok status_code => if is_5xx status_code then true else upstream_5xx rest
      | Raise _ => upstream_5xx rest
      end
  end.

(** The flag [has_5xx_error] that goes into the window. *)
Definition has_5xx_error (parsed : ParsedEntry) : bool :=
  let from_upstream := upstream_5xx (upstream_statuses parsed) in
  match final_status parsed with
  | Some status =>
      if negb (status =? 0)%Z && is_5xx status then true else from_upstream
  | None => from_upstream
  end.

(** [float(n)] of a count; exact below 2^53. *)
Definition float_of_nat (n : nat) : float :=
  PrimFloat.of_uint63 (Uint63.of_Z (Z.of_nat n)).

(** [(error_count / total_count) * 100] *)
Definition error_rate_of (error_count total_count : nat) : float :=
  PrimFloat.mul
    (PrimFloat.div (float_of_nat error_count) (float_of_nat total_count))
    (float_of_nat 100).

(** [sum(self.request_window)] *)
Definition count_errors (window : deque bool) : nat :=
  sum_list (Nat.b2n <$> items window).

(** [max(10, self.window_size // 10)] *)
Definition min_requests (w : LogWatcher) : Z :=
  Z.max 10 (window_size w / 10).

Definition check_error_rate (parsed : ParsedEntry) : M unit :=
  update (fun w => set_request_window
                     (deque_append (has_5xx_error parsed) (request_window w)) w) ;;
  w <- self ;;
  if (min_requests w <=? Z.of_nat (length (items (request_window w))))%Z then
    let error_count := count_errors (request_window w) in
    let total_count := length (items (request_window w)) in
    let error_rate := error_rate_of error_count total_count in
    if PrimFloat.ltb (error_rate_threshold w) error_rate then
      if negb (maintenance_mode w) then
        ok <- can_send_alert "error_rate" ;;
        if ok then send_error_rate_alert error_rate error_count total_count
        else ret tt
      else ret tt
    else ret tt
  else ret tt.

(** ** The ingestion loop of [tail_log_file] *)

(** The body of the loop, for one line read from the log. *)
Definition process_line (line : string) : M unit :=
  parsed <- parse_log_line line ;;
  match parsed with
  | Some entry =>
      match pool entry with
      | Some p =>
          if truthy p then
            check_failover p ;;
            check_error_rate entry
          else ret tt
      | None => ret tt
      end
  | None => ret tt
  end.

(** The loop over the lines that arrive, each with the reading of the clock
    while it is processed. *)
Fixpoint tail_log_file (arrivals : list (Q * string)) : M unit :=
  match arrivals with
  | [] => ret tt
  | (now, line) :: rest =>
      update (set_clock now) ;;
      process_line line ;;
      tail_log_file rest
  end.

(** * Vocabulary of the statements *)

(** Unfolds the monad, so that a method becomes a function of the state. *)
Ltac run_monad :=
  unfold exec, eval, print, emit, update, bind, ret, self, time_time in *;
  cbn [fst snd] in *.

(** The registered timestamp of [kind], read as [can_send_alert] reads it:
    0 when the key is absent. *)
Definition last_fired (w : LogWatcher) (kind : string) : Q :=
  default 0%Q (last_alert_times w !! kind).

(** [now - last >= cooldown], for the kind [kind]. *)
Definition cooled_down (w : LogWatcher) (kind : string) : Prop :=
  (inject_Z (alert_cooldown_sec w) <= clock w - last_fired w kind)%Q.

(** A watcher whose clock reads 100 s, with a cooldown of 300 s and an
    empty registry: no kind has fired yet. *)
Definition cold_watcher : LogWatcher :=
  {| slack_webhook_url := None;
     error_rate_threshold := float_of_nat 2;
     window_size := 200;
     alert_cooldown_sec := 300;
     maintenance_mode := false;
     initial_active_pool := "blue";
     last_seen_pool := Some "blue";
     request_window := {| items := []; maxlen := 200 |};
     last_alert_times := ∅;
     clock := 100;
     trace := [] |}.

(** What [send_slack_alert] leaves on the trace: the console block, and the
    post with the line on its outcome when a webhook is configured. *)
Definition slack_report (w : LogWatcher) (a : alert) (color : string)
  : list event :=
  Stdout (AlertBlock a)
  :: match slack_webhook_url w with
     | Some url => [SlackPost url color a; Stdout SlackOutcome]
     | None => []
     end.

(** What [check_failover] leaves on the trace when the pool changes from
    [old_pool] to [new_pool]: the suppressed line in maintenance mode,
    otherwise the alert. *)
Definition transition_report (w : LogWatcher) (old_pool new_pool : string)
  : list event :=
  if maintenance_mode w then [Stdout (FailoverSuppressed old_pool new_pool)]
  else slack_report w (Failover old_pool new_pool) "warning".

(** [can_send_alert] as a test of the state. *)
Definition cooled_downb (w : LogWatcher) (kind : string) : bool :=
  Qle_bool (inject_Z (alert_cooldown_sec w)) (clock w - last_fired w kind).

(** The state [can_send_alert] leaves when it succeeds. *)
Definition fired (kind : string) (w : LogWatcher) : LogWatcher :=
  set_last_alert_times (<[kind := clock w]> (last_alert_times w)) w.

(** The window holds enough samples, and their error rate is over the
    threshold. *)
Definition breached (w : LogWatcher) : bool :=
  (min_requests w <=? Z.of_nat (length (items (request_window w))))%Z
  && PrimFloat.ltb (error_rate_threshold w)
       (error_rate_of (count_errors (request_window w))
                      (length (items (request_window w)))).

(** The alert [check_error_rate] sends for the window of [w]. *)
Definition error_rate_alert (w : LogWatcher) : alert :=
  ErrorRate
    (error_rate_of (count_errors (request_window w))
                   (length (items (request_window w))))
    (count_errors (request_window w))
    (length (items (request_window w)))
    (error_rate_threshold w) (last_seen_pool w).

(** The state after the sample of [parsed] has entered the window. *)
Definition observed (parsed : ParsedEntry) (w : LogWatcher) : LogWatcher :=
  set_request_window (deque_append (has_5xx_error parsed) (request_window w)) w.

(** The environment of the examples: a cooldown of 300 s, a window of
    [capacity] requests, a threshold of 2 percent, console only. *)
Definition sample_env (capacity : Z) (maintenance : bool) : Env :=
  {| SLACK_WEBHOOK_URL := None;
     ERROR_RATE_THRESHOLD := float_of_nat 2;
     WINDOW_SIZE := capacity;
     ALERT_COOLDOWN_SEC := 300;
     MAINTENANCE_MODE := maintenance;
     ACTIVE_POOL := "blue" |}.

(** The watcher [LogWatcher()] builds in that environment. *)
Definition sample_watcher (capacity : Z) (maintenance : bool) : LogWatcher :=
  {| slack_webhook_url := None;
     error_rate_threshold := float_of_nat 2;
     window_size := capacity;
     alert_cooldown_sec := 300;
     maintenance_mode := maintenance;
     initial_active_pool := "blue";
     last_seen_pool := None;
     request_window := {| items := []; maxlen := Z.to_nat capacity |};
     last_alert_times := ∅;
     clock := 0;
     trace := [] |}.

(** An access-log line in the format of the deployment: the request between
    quotes, the final status, then the tagged fields. *)
Definition access_line (served_by final upstream_codes : string) : string :=
  "10.0.0.7 - - [03/Nov/2026:10:00:00 +0000] "
  +:+ Re.quoted "GET /version HTTP/1.1" +:+ " " +:+ final
  +:+ " 57 pool=" +:+ served_by
  +:+ " release=v1.0.3 upstream_status=" +:+ upstream_codes
  +:+ " upstream=172.18.0.3:3000 request_time=0.004"
  +:+ " upstream_response_time=0.004" +:+ String (ascii_of_nat 10) EmptyString.

(** Three requests: blue at 1000 s, green at 1001 s, blue again at 1101 s,
    100 s after the failover to green. *)
Definition failover_burst_start : list (Q * string) :=
  [(1000%Q, access_line "blue" "200" "200");
   (1001%Q, access_line "green" "200" "200")].
Definition failover_burst_end : list (Q * string) :=
  [(1101%Q, access_line "blue" "200" "200")].

(** [n] failed requests served by blue, one per second from 1000 s on. *)
Definition error_burst (n : nat) : list (Q * string) :=
  (fun i => (inject_Z (1000 + Z.of_nat i), access_line "blue" "500" "500"))
    <$> seq 0 n.

(** The entry of a request that failed with status 500. *)
Definition failed_entry : ParsedEntry :=
  {| pool := Some "blue";
     release := None;
     upstream_statuses := ["500"];
     final_status := Some 500%Z;
     upstream := None;
     request_time := None;
     upstream_response_time := None;
     raw_line := "" |}.

(** A watcher of capacity 200 that has seen [n] failed requests and whose
    cooldown has long passed. *)
Definition failing_watcher (n : nat) : LogWatcher :=
  {| slack_webhook_url := None;
     error_rate_threshold := float_of_nat 2;
     window_size := 200;
     alert_cooldown_sec := 300;
     maintenance_mode := false;
     initial_active_pool := "blue";
     last_seen_pool := Some "blue";
     request_window := {| items := replicate n true; maxlen := 200 |};
     last_alert_times := ∅;
     clock := 5000;
     trace := [] |}.

(** The parts of a method stay folded while the monad is unfolded. *)
Arguments deque_append : simpl never.
Arguments min_requests : simpl never.
Arguments error_rate_of : simpl never.
Arguments count_errors : simpl never.
Arguments float_of_nat : simpl never.
Arguments has_5xx_error : simpl never.
Arguments can_send_alert : simpl never.
Arguments send_slack_alert : simpl never.
Arguments parse_fields : simpl never.

(** The entry of a line that counts as a request: the line parses and its
    pool is present, the gate of the ingestion loop. *)
Definition counted (line : string) : option ParsedEntry :=
  match parse_fields line with
  | Ok entry =>
      match pool entry with
      | Some p => if truthy p then Some entry else None
      | None => None
      end
  | Raise _ => None
  end.

(** The samples a sequence of lines sends to the window, oldest first. *)
Fixpoint samples (lines : list string) : list bool :=
  match lines with
  | [] => []
  | line :: rest =>
      match counted line with
      | Some entry => has_5xx_error entry :: samples rest
      | None => samples rest
      end
  end.

(** The last [n] items of a list. *)
Definition last_n {A} (n : nat) (l : list A) : list A :=
  drop (length l - n) l.

(** An event of a recovery alert, on the console or posted. *)
Definition about_recovery (e : event) : bool :=
  match e with
  | Stdout (AlertBlock (Recovery _)) => true
  | SlackPost _ _ (Recovery _) => true
  | _ => false
  end.

(** [w'] is [w] after steps that dispatched no recovery alert: the trace
    grew by events that are not about a recovery, and the timestamp of the
    kind [recovery] is the one of [w]. *)
Definition no_recovery_between (w w' : LogWatcher) : Prop :=
  (exists new : list event,
      trace w' = trace w ++ new /\
      Forall (fun e => about_recovery e = false) new) /\
  last_alert_times w' !! "recovery" = last_alert_times w !! "recovery".

(** The state [check_failover] leaves when the pool changes. *)
Definition switched (old_pool new_pool : string) (w : LogWatcher) : LogWatcher :=
  let w1 := set_last_seen_pool (Some new_pool) w in
  if maintenance_mode w
  then set_trace (trace w1 ++ [Stdout (FailoverSuppressed old_pool new_pool)]) w1
  else fired "failover"
         (set_trace
            (trace w1 ++ slack_report w1 (Failover old_pool new_pool) "warning")
            w1).

(** Five requests served by blue, the second, third and fifth of which
    failed. *)
Definition mixed_run : list (Q * string) :=
  [(1000%Q, access_line "blue" "200" "200");
   (1001%Q, access_line "blue" "502" "502");
   (1002%Q, access_line "blue" "200" "502,200");
   (1003%Q, access_line "blue" "200" "200");
   (1004%Q, access_line "blue" "500" "500")].

(** The entry of a line in which no pattern is found. *)
Definition empty_entry (line : string) : ParsedEntry :=
  {| pool := None;
     release := None;
     upstream_statuses := [];
     final_status := None;
     upstream := None;
     request_time := None;
     upstream_response_time := None;
     raw_line := strip line |}.

(** No pattern of the parser occurs in [line]. *)
Definition no_field_matches (line : string) : Prop :=
  Re.search_key "pool=" Re.non_space line = None /\
  Re.search_key "release=" Re.non_space line = None /\
  Re.search_key "upstream_status=" Re.non_space line = None /\
  Re.search_status line = None /\
  Re.search_key "upstream=" Re.non_space line = None /\
  Re.search_key "request_time=" Re.digit_or_dot line = None /\
  Re.search_key "upstream_response_time=" Re.digit_dot_comma_space line = None.

(** [",".join(tokens)] *)
Fixpoint join_comma (tokens : list string) : string :=
  match tokens with
  | [] => EmptyString
  | [token] => token
  | token :: rest => token +:+ String "," (join_comma rest)
  end.

(** The character [c] is not a comma. *)
Definition not_comma (c : ascii) : bool := negb (Ascii.eqb c ",").

(** The first character of [s] is outside the class [cls]; true of the
    empty text. *)
Definition stops (cls : ascii -> bool) (s : string) : Prop :=
  match s with
  | EmptyString => True
  | String c _ => cls c = false
  end.

(** The number of dots in a text. *)
Fixpoint count_dots (s : string) : nat :=
  match s with
  | EmptyString => 0
  | String c r => (if Ascii.eqb c "." then 1 else 0) + count_dots r
  end.

(** The text [s] starts with the pattern of the final status: a quote, the
    text [q] without a quote, a quote, a space, the three digits [g], and
    then [post]. *)
Definition status_at (s q g post : string) : Prop :=
  s = String Re.dquote (q +:+ String Re.dquote (String " " (g +:+ post))) /\
  all_chars Re.not_quote q = true /\
  String.length g = 3 /\
  all_chars is_digit g = true.

(** [w'] has the configuration of [w]: the settings read from the
    environment and the capacity of the window. *)
Definition same_config (w w' : LogWatcher) : Prop :=
  slack_webhook_url w' = slack_webhook_url w /\
  error_rate_threshold w' = error_rate_threshold w /\
  window_size w' = window_size w /\
  alert_cooldown_sec w' = alert_cooldown_sec w /\
  maintenance_mode w' = maintenance_mode w /\
  initial_active_pool w' = initial_active_pool w /\
  maxlen (request_window w') = maxlen (request_window w).

(** The trace of [w'] is the trace of [w] and then events that all satisfy
    [ok]. *)
Definition adds_only (ok : event -> Prop) (w w' : LogWatcher) : Prop :=
  exists new : list event, trace w' = trace w ++ new /\ Forall ok new.

(** An event of an alert: its console block, its post, the line on the
    outcome of the post. *)
Definition is_alert (e : event) : bool :=
  match e with
  | Stdout (AlertBlock _) => true
  | Stdout SlackOutcome => true
  | SlackPost _ _ _ => true
  | _ => false
  end.

(** The event is no post, or a post to [url]. *)
Definition posted_to (url : option string) (e : event) : Prop :=
  match e with
  | SlackPost u _ _ => url = Some u
  | _ => True
  end.

(** An event of an error-rate alert, on the console or posted. *)
Definition about_error_rate (e : event) : bool :=
  match e with
  | Stdout (AlertBlock (ErrorRate _ _ _ _ _)) => true
  | SlackPost _ _ (ErrorRate _ _ _ _ _) => true
  | _ => false
  end.

(** The pools of the lines that count, in the order of arrival. *)
Fixpoint pools (lines : list string) : list string :=
  match lines with
  | [] => []
  | line :: rest =>
      match counted line with
      | Some entry => default "" (pool entry) :: pools rest
      | None => pools rest
      end
  end.

(** The number of times the pool changes along [served], for a detector
    that tracks [tracked] at the start. *)
Fixpoint changes (tracked : option string) (served : list string) : nat :=
  match served with
  | [] => 0
  | p :: rest =>
      match tracked with
      | Some old => if String.eqb p old then 0 else 1
      | None => 0
      end + changes (Some p) rest
  end.

(** The console report of a failover: the alert block, or the line that
    tells it was suppressed. *)
Definition is_failover_report (e : event) : bool :=
  match e with
  | Stdout (AlertBlock (Failover _ _)) => true
  | Stdout (FailoverSuppressed _ _) => true
  | _ => false
  end.

(** The number of failover reports in a trace. *)
Fixpoint failover_reports (t : list event) : nat :=
  match t with
  | [] => 0
  | e :: rest => (if is_failover_report e then 1 else 0) + failover_reports rest
  end.

(** The window is within its capacity, and the capacity is under ten. *)
Definition small_window (w : LogWatcher) : Prop :=
  length (items (request_window w)) <= maxlen (request_window w) /\
  maxlen (request_window w) < 10.

(** [n] requests served by blue without an error, one per second from
    2000 s on. *)
Definition clean_burst (n : nat) : list (Q * string) :=
  (fun i => (inject_Z (2000 + Z.of_nat i), access_line "blue" "200" "200"))
    <$> seq 0 n.

(** The environment of the sample configuration shipped with the watcher,
    whose webhook is still the placeholder. *)
Definition placeholder_env : Env :=
  {| SLACK_WEBHOOK_URL := Some placeholder_webhook;
     ERROR_RATE_THRESHOLD := float_of_nat 2;
     WINDOW_SIZE := 200;
     ALERT_COOLDOWN_SEC := 300;
     MAINTENANCE_MODE := false;
     ACTIVE_POOL := "blue" |}.

(** * Properties *)

(** ** The runtime and the patterns on examples *)

Example int_reads_decimal :
  Py.int "502" = Ok 502%Z /\ Py.int "+5_02" = Ok 502%Z /\ Py.int " 200 " = Ok 200%Z.
Proof. repeat split; reflexivity. Qed.

Example int_refuses :
  Py.int "-" = Raise (ValueError "invalid literal for int() with base 10") /\
  Py.int "" = Raise (ValueError "invalid literal for int() with base 10") /\
  Py.int "5__02" = Raise (ValueError "invalid literal for int() with base 10") /\
  Py.int "50x" = Raise (ValueError "invalid literal for int() with base 10").
Proof. repeat split; reflexivity. Qed.

Example float_reads_and_refuses :
  float_of_digits_and_dots "0.004" = Ok (4 # 1000)%Q /\
  float_of_digits_and_dots "12." = Ok (12 # 1)%Q /\
  float_of_digits_and_dots "." = Raise (ValueError "could not convert string to float") /\
  float_of_digits_and_dots "1.2.3" = Raise (ValueError "could not convert string to float").
Proof. repeat split; reflexivity. Qed.

Example split_comma_keeps_empty_tokens :
  split_comma "502,200" = ["502"; "200"] /\ split_comma "502," = ["502"; ""].
Proof. split; reflexivity. Qed.

(** The search takes the leftmost place where the whole pattern matches. *)
Example search_pool_leftmost :
  Re.search_key "pool=" Re.non_space "pool= upstream_pool=blue pool=green"
  = Some "blue".
Proof. reflexivity. Qed.

(** The status follows the first quoted text that a space and three digits
    follow. *)
Example search_status_skips_other_quotes :
  Re.search_status (Re.quoted "a" +:+ " x " +:+ Re.quoted "b" +:+ " 200 " +:+ Re.quoted "c" +:+ " 404")
  = Some "200".
Proof. reflexivity. Qed.

Example parse_access_line :
  parse_fields (access_line "green" "200" "502,200") =
    Ok {| pool := Some "green";
          release := Some "v1.0.3";
          upstream_statuses := ["502"; "200"];
          final_status := Some 200%Z;
          upstream := Some "172.18.0.3:3000";
          request_time := Some (4 # 1000)%Q;
          upstream_response_time :=
            Some ("0.004" +:+ String (ascii_of_nat 10) EmptyString);
          raw_line := strip (access_line "green" "200" "502,200") |}.
Proof. vm_compute. reflexivity. Qed.

(** The rate of 25 errors in 200 requests is 12.5 and is over a threshold
    of 2; the floor of a window of 205 requests is 20, the integer quotient. *)
Example error_rate_25_of_200 :
  error_rate_of 25 200 = 12.5%float /\
  PrimFloat.ltb (float_of_nat 2) (error_rate_of 25 200) = true /\
  min_requests (sample_watcher 205 false) = 20%Z /\
  min_requests (sample_watcher 50 false) = 10%Z.
Proof. vm_compute. repeat split; reflexivity. Qed.

(** ** The methods as functions of the state *)

Lemma can_send_alert_eq (kind : string) (w : LogWatcher) :
  can_send_alert kind w =
    (cooled_downb w kind, if cooled_downb w kind then fired kind w else w).
Proof.
  unfold can_send_alert, cooled_downb, last_fired, fired. run_monad.
  now destruct (Qle_bool _ _).
Qed.

Lemma send_slack_alert_eq (a : alert) (color : string) (w : LogWatcher) :
  send_slack_alert a color w =
    (tt, set_trace (trace w ++ slack_report w a color) w).
Proof.
  unfold send_slack_alert, slack_report. run_monad. cbn.
  destruct (slack_webhook_url w); cbn; [|reflexivity].
  now rewrite <- !app_assoc.
Qed.

Lemma send_failover_alert_eq (old_pool new_pool : string) (w : LogWatcher) :
  send_failover_alert old_pool new_pool w =
    (tt,
     fired "failover"
       (set_trace
          (trace w ++ slack_report w (Failover old_pool new_pool) "warning") w)).
Proof.
  unfold send_failover_alert. run_monad. now rewrite send_slack_alert_eq.
Qed.

Lemma check_error_rate_eq (parsed : ParsedEntry) (w : LogWatcher) :
  check_error_rate parsed w =
    (tt,
     let w1 := observed parsed w in
     if breached w1 && negb (maintenance_mode w1) && cooled_downb w1 "error_rate"
     then set_trace (trace w1 ++ slack_report w1 (error_rate_alert w1) "danger")
            (fired "error_rate" w1)
     else w1).
Proof.
  unfold check_error_rate. run_monad. fold (observed parsed w).
  cbv zeta. unfold breached.
  destruct (_ <=? _)%Z; cbn [andb]; [|reflexivity].
  destruct (PrimFloat.ltb _ _); cbn [andb]; [|reflexivity].
  destruct (maintenance_mode (observed parsed w)) eqn:Hm; cbn [andb negb];
    [reflexivity|].
  rewrite can_send_alert_eq.
  destruct (cooled_downb _ _); [|reflexivity].
  unfold send_error_rate_alert. run_monad. rewrite send_slack_alert_eq.
  reflexivity.
Qed.

(** ** The cooldown registry *)

Lemma can_send_alert_fires (w : LogWatcher) (kind : string) :
  cooled_down w kind ->
  can_send_alert kind w =
    (true, set_last_alert_times (<[kind := clock w]> (last_alert_times w)) w).
Proof.
  intros Hready. apply Qle_bool_iff in Hready.
  unfold can_send_alert. run_monad. unfold last_fired in Hready.
  now rewrite Hready.
Qed.

Lemma can_send_alert_suppressed (w : LogWatcher) (kind : string) :
  ~ cooled_down w kind -> can_send_alert kind w = (false, w).
Proof.
  intros Hnot. unfold can_send_alert. run_monad.
  destruct (Qle_bool _ _) eqn:Hle; [|reflexivity].
  exfalso. apply Hnot. now apply Qle_bool_iff.
Qed.

Lemma cooled_down_dec (w : LogWatcher) (kind : string) :
  cooled_down w kind \/ ~ cooled_down w kind.
Proof.
  unfold cooled_down.
  destruct (Qlt_le_dec (clock w - last_fired w kind)
                       (inject_Z (alert_cooldown_sec w)))
    as [Hlt | Hle]; [right | left; exact Hle].
  intros Hle. exact (Qlt_not_le _ _ Hlt Hle).
Qed.

(** C8: a kind that never fired is not eligible at once.  The absent key
    is read as the timestamp 0, the default of [get], which stands for
    never fired only while the clock is past the cooldown: at clock 100 with
    a cooldown of 300 and an empty registry the first attempt of [error_rate]
    is suppressed. *)
Lemma absent_key_not_eligible_immediately :
  last_alert_times cold_watcher !! "error_rate" = None /\
  eval (can_send_alert "error_rate") cold_watcher = false.
Proof. split; reflexivity. Qed.

(** The registry as the code keeps it: an attempt of [kind] succeeds
    exactly when [now - last >= cooldown], where [last] is the registered
    timestamp of the kind, and 0 when the key is absent; on success the
    registry maps the kind to [now] and nothing else changes, on suppression
    nothing changes at all, and no attempt touches the timestamp of another
    kind. *)
Theorem can_send_alert_cooldown (kind : string) (w : LogWatcher) :
  (eval (can_send_alert kind) w = true <->
   (inject_Z (alert_cooldown_sec w)
    <= clock w - default 0%Q (last_alert_times w !! kind))%Q) /\
  (eval (can_send_alert kind) w = true ->
   exec (can_send_alert kind) w =
     set_last_alert_times (<[kind := clock w]> (last_alert_times w)) w) /\
  (eval (can_send_alert kind) w = false -> exec (can_send_alert kind) w = w) /\
  (forall other : string,
      other <> kind ->
      last_alert_times (exec (can_send_alert kind) w) !! other
      = last_alert_times w !! other).
Proof.
  change (inject_Z (alert_cooldown_sec w)
          <= clock w - default 0%Q (last_alert_times w !! kind))%Q
    with (cooled_down w kind).
  destruct (cooled_down_dec w kind) as [Hr | Hn].
  - pose proof (can_send_alert_fires w kind Hr) as E.
    unfold exec, eval. rewrite E. cbn.
    repeat split; auto; try discriminate.
    intros other Hne. now rewrite lookup_insert_ne.
  - pose proof (can_send_alert_suppressed w kind Hn) as E.
    unfold exec, eval. rewrite E. cbn.
    repeat split; auto; try discriminate; intros; contradiction.
Qed.

(** A kind that has fired is suppressed until the cooldown has passed, and
    another kind is not held back by it. *)
Lemma can_send_alert_cooldown_witness :
  last_alert_times
    (exec (can_send_alert "error_rate")
       (set_last_alert_times (<["failover" := 1000%Q]> ∅)
          (set_clock 1100 cold_watcher))) !! "failover"
  = Some 1000%Q.
Proof.
  destruct (can_send_alert_cooldown "error_rate"
              (set_last_alert_times (<["failover" := 1000%Q]> ∅)
                 (set_clock 1100 cold_watcher))) as (_ & _ & _ & Hother).
  rewrite Hother; [reflexivity | discriminate].
Defined.

(** ** The failover detector *)

Lemma string_eqb_false (a b : string) : a <> b -> String.eqb a b = false.
Proof. intros H. now apply String.eqb_neq. Qed.

(** C6: the first pool observed becomes the baseline and no failover is
    reported; a pool that differs from the tracked one replaces it and the
    transition from the old pool to the new one is reported (the call returns
    true and the trace gets the report that names both pools); the tracked
    pool observed again reports nothing and changes nothing. *)
Theorem check_failover_contract (w : LogWatcher) (p : string) :
  (last_seen_pool w = None ->
   check_failover p w =
     (false,
      set_trace (trace w ++ [Stdout (BaselineEstablished p)])
        (set_last_seen_pool (Some p) w))) /\
  (forall old : string,
      last_seen_pool w = Some old -> p <> old ->
      eval (check_failover p) w = true /\
      last_seen_pool (exec (check_failover p) w) = Some p /\
      trace (exec (check_failover p) w) = trace w ++ transition_report w old p) /\
  (last_seen_pool w = Some p -> check_failover p w = (false, w)).
Proof.
  split; [|split].
  - intros Hnone. unfold check_failover. run_monad. now rewrite Hnone.
  - intros old Hold Hne.
    unfold check_failover, transition_report. run_monad.
    rewrite Hold, (string_eqb_false _ _ Hne). cbn [negb].
    destruct (maintenance_mode w); cbn [negb].
    + repeat split.
    + rewrite send_failover_alert_eq. repeat split.
  - intros Hsame. unfold check_failover. run_monad. rewrite Hsame.
    now rewrite String.eqb_refl.
Qed.

(** The scenario of the specification: blue sets the baseline, blue again
    and green after green report nothing, green after blue is a transition. *)
Lemma check_failover_contract_witness :
  eval (check_failover "green") (set_last_seen_pool (Some "blue") cold_watcher)
  = true /\
  check_failover "blue" cold_watcher = (false, cold_watcher).
Proof.
  split.
  - destruct (check_failover_contract
                (set_last_seen_pool (Some "blue") cold_watcher) "green")
      as (_ & Hchange & _).
    apply (Hchange "blue"); [reflexivity | discriminate].
  - destruct (check_failover_contract cold_watcher "blue") as (_ & _ & Hsame).
    apply Hsame. reflexivity.
Defined.

(** The detector on blue, blue, green, green: only the third observation
    is a failover. *)
Example failover_detector_sequence :
  let w0 := sample_watcher 200 false in
  let w1 := exec (check_failover "blue") w0 in
  let w2 := exec (check_failover "blue") w1 in
  let w3 := exec (check_failover "green") w2 in
  eval (check_failover "blue") w0 = false /\
  eval (check_failover "blue") w1 = false /\
  eval (check_failover "green") w2 = true /\
  eval (check_failover "green") w3 = false /\
  trace w3 = [Stdout (BaselineEstablished "blue");
              Stdout (AlertBlock (Failover "blue" "green"))].
Proof. vm_compute. repeat split; reflexivity. Qed.

(** C1: the failover alert is not gated by the cooldown.  With a cooldown
    of 300 s the failover to green fires at 1001 s and registers that time;
    the failover back to blue at 1101 s, 100 s later, fires as well. *)
Theorem failover_alert_ignores_cooldown :
  LogWatcher_init (sample_env 200 false) = Ok (sample_watcher 200 false) /\
  let w1 := exec (tail_log_file failover_burst_start) (sample_watcher 200 false) in
  let w2 := exec (tail_log_file failover_burst_end) w1 in
  trace w1 = [Stdout (BaselineEstablished "blue");
              Stdout (AlertBlock (Failover "blue" "green"))] /\
  last_alert_times w1 !! "failover" = Some 1001%Q /\
  alert_cooldown_sec w2 = 300%Z /\
  clock w2 = 1101%Q /\
  trace w2 = trace w1 ++ [Stdout (AlertBlock (Failover "green" "blue"))] /\
  last_alert_times w2 !! "failover" = Some 1101%Q.
Proof. vm_compute. repeat split; reflexivity. Qed.

(** ** The error-rate monitor *)

(** In maintenance mode [check_error_rate] neither prints nor posts, and
    leaves the registry alone. *)
Lemma check_error_rate_maintenance_silent (w : LogWatcher) (parsed : ParsedEntry) :
  maintenance_mode w = true ->
  trace (exec (check_error_rate parsed) w) = trace w /\
  last_alert_times (exec (check_error_rate parsed) w) = last_alert_times w.
Proof.
  intros Hm. unfold exec. rewrite check_error_rate_eq. cbn [snd]. cbv zeta.
  replace (maintenance_mode (observed parsed w)) with true by (symmetry; exact Hm).
  rewrite andb_false_r. cbn [andb]. now split.
Qed.

(** C2: in maintenance mode a breach of the threshold leaves no line on
    the console.  Twenty failed requests fill the floor of a window of 200;
    the rate is then over the threshold, the registry is still empty, and the
    trace holds the baseline line only. *)
Theorem maintenance_breach_prints_nothing :
  let w := exec (tail_log_file (error_burst 20)) (sample_watcher 200 true) in
  maintenance_mode w = true /\
  (min_requests w <=? Z.of_nat (length (items (request_window w))))%Z = true /\
  PrimFloat.ltb (error_rate_threshold w)
    (error_rate_of (count_errors (request_window w))
                   (length (items (request_window w)))) = true /\
  trace w = [Stdout (BaselineEstablished "blue")] /\
  last_alert_times w = ∅.
Proof. vm_compute. repeat split; reflexivity. Qed.

(** The floor the code keeps: when the window, the new sample included,
    holds fewer than [max(10, capacity // 10)] samples, with the quotient
    rounded down, [check_error_rate] reports nothing, whatever the window
    holds: the trace and the registry stay as they were. *)
Theorem no_breach_below_floor (w : LogWatcher) (parsed : ParsedEntry) :
  (Z.of_nat (length (items (request_window (exec (check_error_rate parsed) w))))
   < Z.max 10 (window_size w / 10))%Z ->
  trace (exec (check_error_rate parsed) w) = trace w /\
  last_alert_times (exec (check_error_rate parsed) w) = last_alert_times w.
Proof.
  unfold exec. rewrite check_error_rate_eq. cbn [snd].
  intros Hlow.
  assert (breached (observed parsed w) = false) as Hb.
  { unfold breached.
    destruct (Z.leb_spec (min_requests (observed parsed w))
                (Z.of_nat (length (items (request_window (observed parsed w))))))
      as [Hge | Hlt]; [|reflexivity].
    exfalso. revert Hlow Hge. unfold min_requests.
    destruct (breached _ && _ && _); cbn; lia. }
  rewrite Hb. cbn. auto.
Qed.

(** Eighteen failures in a window of 200, then a nineteenth: every sample
    is an error, the floor of 20 is not met, nothing is reported. *)
Lemma no_breach_below_floor_witness :
  trace (exec (check_error_rate failed_entry) (failing_watcher 18)) = [] /\
  last_alert_times (exec (check_error_rate failed_entry) (failing_watcher 18)) = ∅.
Proof.
  apply (no_breach_below_floor (failing_watcher 18) failed_entry).
  vm_compute. reflexivity.
Defined.

(** C5: a breach is reported below a tenth of the capacity.  With a window
    of 209 requests the floor of the code is [209 // 10 = 20]: the twentieth
    failed request is reported, while the window holds 20 samples, fewer than
    the 20.9 that are a tenth of its capacity. *)
Theorem breach_below_a_tenth_of_capacity :
  LogWatcher_init (sample_env 209 false) = Ok (sample_watcher 209 false) /\
  let before := exec (tail_log_file (error_burst 19)) (sample_watcher 209 false) in
  let w := exec (tail_log_file (error_burst 20)) (sample_watcher 209 false) in
  trace before = [Stdout (BaselineEstablished "blue")] /\
  length (items (request_window w)) = 20 /\
  (10 < inject_Z (window_size w) / 10)%Q /\
  (inject_Z (Z.of_nat (length (items (request_window w))))
   < inject_Z (window_size w) / 10)%Q /\
  trace w = [Stdout (BaselineEstablished "blue");
             Stdout (AlertBlock (ErrorRate (float_of_nat 100) 20 20
                                           (float_of_nat 2) (Some "blue")))].
Proof. vm_compute. repeat split; reflexivity. Qed.

(** One more failure meets the floor, and the breach is reported. *)
Example breach_at_floor :
  trace (exec (check_error_rate failed_entry) (failing_watcher 19))
  = [Stdout (AlertBlock (ErrorRate (float_of_nat 100) 20 20 (float_of_nat 2)
                                   (Some "blue")))].
Proof. vm_compute. reflexivity. Qed.

(** ** The ingestion loop *)

Lemma parse_log_line_eq (line : string) (w : LogWatcher) :
  parse_log_line line w =
    match parse_fields line with
    | Ok entry => (Some entry, w)
    | Raise e => (None, set_trace (trace w ++ [Stdout (ParseFailed e)]) w)
    end.
Proof.
  unfold parse_log_line, try_except, rbind.
  now destruct (parse_fields line).
Qed.

Lemma check_failover_eq (p : string) (w : LogWatcher) :
  check_failover p w =
    match last_seen_pool w with
    | None =>
        (false,
         set_trace (trace w ++ [Stdout (BaselineEstablished p)])
           (set_last_seen_pool (Some p) w))
    | Some old => if String.eqb p old then (false, w) else (true, switched old p w)
    end.
Proof.
  unfold check_failover, switched. run_monad.
  destruct (last_seen_pool w) as [old|]; [|reflexivity].
  destruct (String.eqb p old); cbn [negb]; [reflexivity|].
  destruct (maintenance_mode w); cbn [negb]; [reflexivity|].
  now rewrite send_failover_alert_eq.
Qed.

Lemma process_line_eq (line : string) (w : LogWatcher) :
  process_line line w =
    (tt,
     match parse_fields line with
     | Raise e => set_trace (trace w ++ [Stdout (ParseFailed e)]) w
     | Ok _ =>
         match counted line with
         | Some entry =>
             exec (check_error_rate entry)
               (exec (check_failover (default "" (pool entry))) w)
         | None => w
         end
     end).
Proof.
  unfold process_line, counted. run_monad. rewrite parse_log_line_eq.
  destruct (parse_fields line) as [entry|e]; [|reflexivity].
  destruct (pool entry) as [p|] eqn:Hp; [|reflexivity].
  destruct (truthy p); [|reflexivity].
  rewrite Hp. cbn [default from_option id].
  destruct (check_failover p w) as [b w1]. cbn [snd].
  now destruct (check_error_rate entry w1) as [[] w2].
Qed.

Lemma tail_log_file_cons (now : Q) (line : string) (rest : list (Q * string))
    (w : LogWatcher) :
  exec (tail_log_file ((now, line) :: rest)) w =
    exec (tail_log_file rest) (exec (process_line line) (set_clock now w)).
Proof.
  cbn [tail_log_file]. run_monad.
  destruct (process_line line (set_clock now w)) as [[] w1].
  reflexivity.
Qed.

(** ** No recovery alert during ingestion *)

Lemma no_recovery_refl (w : LogWatcher) : no_recovery_between w w.
Proof.
  split; [|reflexivity]. exists []. split; [now rewrite app_nil_r | constructor].
Qed.

Lemma no_recovery_trans (w1 w2 w3 : LogWatcher) :
  no_recovery_between w1 w2 -> no_recovery_between w2 w3 ->
  no_recovery_between w1 w3.
Proof.
  intros [(n1 & T1 & F1) L1] [(n2 & T2 & F2) L2]. split.
  - exists (n1 ++ n2). split.
    + now rewrite T2, T1, app_assoc.
    + now apply Forall_app.
  - now rewrite L2.
Qed.

Lemma slack_report_no_recovery (w : LogWatcher) (a : alert) (color : string) :
  (forall primary, a <> Recovery primary) ->
  Forall (fun e => about_recovery e = false) (slack_report w a color).
Proof.
  intros Hnot. unfold slack_report.
  assert (about_recovery (Stdout (AlertBlock a)) = false) as H1
    by (destruct a; try reflexivity; now destruct (Hnot primary)).
  destruct (slack_webhook_url w) as [url|]; repeat constructor; assumption.
Qed.

Lemma check_failover_no_recovery (p : string) (w : LogWatcher) :
  no_recovery_between w (exec (check_failover p) w).
Proof.
  unfold exec. rewrite check_failover_eq.
  destruct (last_seen_pool w) as [old|]; cbn [snd].
  - destruct (String.eqb p old); cbn [snd]; [apply no_recovery_refl|].
    unfold switched. destruct (maintenance_mode w).
    + split; [|reflexivity]. eexists. split; [reflexivity|]. now repeat constructor.
    + split.
      * eexists. split; [reflexivity|].
        now apply slack_report_no_recovery.
      * cbn. now rewrite lookup_insert_ne.
  - split; [|reflexivity]. eexists. split; [reflexivity|]. now repeat constructor.
Qed.

Lemma check_error_rate_no_recovery (parsed : ParsedEntry) (w : LogWatcher) :
  no_recovery_between w (exec (check_error_rate parsed) w).
Proof.
  unfold exec. rewrite check_error_rate_eq. cbn [snd]. cbv zeta.
  destruct (_ && _ && _).
  - split.
    + eexists. split; [reflexivity|].
      now apply slack_report_no_recovery.
    + cbn. now rewrite lookup_insert_ne.
  - split; [|reflexivity].
    exists []. split; [now rewrite app_nil_r | constructor].
Qed.

Lemma process_line_no_recovery (line : string) (w : LogWatcher) :
  no_recovery_between w (exec (process_line line) w).
Proof.
  unfold exec at 1. rewrite process_line_eq. cbn [snd].
  destruct (parse_fields line) as [entry|e].
  - destruct (counted line) as [counted_entry|]; [|apply no_recovery_refl].
    eapply no_recovery_trans;
      [apply check_failover_no_recovery | apply check_error_rate_no_recovery].
  - split; [|reflexivity]. eexists. split; [reflexivity|]. now repeat constructor.
Qed.

Lemma tail_log_file_no_recovery (arrivals : list (Q * string)) (w : LogWatcher) :
  no_recovery_between w (exec (tail_log_file arrivals) w).
Proof.
  revert w. induction arrivals as [|[now line] rest IH]; intros w.
  - apply no_recovery_refl.
  - rewrite tail_log_file_cons.
    eapply no_recovery_trans; [|apply IH].
    eapply no_recovery_trans; [|apply process_line_no_recovery].
    split; [|reflexivity]. exists []. split; [now rewrite app_nil_r | constructor].
Qed.

Lemma send_recovery_alert_eq (w : LogWatcher) :
  send_recovery_alert w =
    (tt,
     if bool_decide (last_seen_pool w = Some (initial_active_pool w))
        && cooled_downb w "recovery"
     then set_trace
            (trace w ++ slack_report w (Recovery (initial_active_pool w)) "good")
            (fired "recovery" w)
     else w).
Proof.
  unfold send_recovery_alert. run_monad.
  destruct (bool_decide _); cbn [andb]; [|reflexivity].
  rewrite can_send_alert_eq.
  destruct (cooled_downb w "recovery"); [|reflexivity].
  now rewrite send_slack_alert_eq.
Qed.

Lemma app_cons_neq {A} (l r : list A) (x : A) : l ++ x :: r <> l.
Proof.
  intros H. apply (f_equal length) in H. rewrite length_app in H. cbn in H. lia.
Qed.

(** C3: whatever lines arrive, the ingestion loop dispatches no recovery
    alert: the events it adds to the trace are not about a recovery and the
    timestamp of the kind [recovery] stays as it was.  The recovery path is
    [send_recovery_alert] alone, which sends its alert exactly when the
    tracked pool is the primary pool and the cooldown of the key [recovery]
    has passed. *)
Theorem ingestion_dispatches_no_recovery
    (arrivals : list (Q * string)) (w : LogWatcher) :
  ((exists new : list event,
       trace (exec (tail_log_file arrivals) w) = trace w ++ new /\
       Forall (fun e => about_recovery e = false) new) /\
   last_alert_times (exec (tail_log_file arrivals) w) !! "recovery"
   = last_alert_times w !! "recovery") /\
  (trace (exec send_recovery_alert w) <> trace w <->
   last_seen_pool w = Some (initial_active_pool w) /\
   (inject_Z (alert_cooldown_sec w)
    <= clock w - default 0%Q (last_alert_times w !! "recovery"))%Q) /\
  (trace (exec send_recovery_alert w) <> trace w ->
   exec send_recovery_alert w =
     set_trace
       (trace w ++ slack_report w (Recovery (initial_active_pool w)) "good")
       (set_last_alert_times (<["recovery" := clock w]> (last_alert_times w)) w)).
Proof.
  split; [exact (tail_log_file_no_recovery arrivals w)|].
  unfold exec. rewrite send_recovery_alert_eq. cbn [snd].
  unfold cooled_downb, last_fired.
  destruct (bool_decide_reflect (last_seen_pool w = Some (initial_active_pool w)))
    as [Hp | Hp]; cbn [andb].
  - destruct (Qle_bool _ _) eqn:Hq.
    + apply Qle_bool_iff in Hq. cbn. split; [|reflexivity].
      split; [auto | intros _; apply app_cons_neq].
    + split; [|congruence].
      split; [congruence|]. intros [_ Hle].
      apply Qle_bool_iff in Hle. congruence.
  - split; [|congruence]. split; [congruence | tauto].
Qed.

(** ** What the parser returns *)

(** The fields of a parsed entry, read off the line one by one. *)
Lemma parse_fields_inv (line : string) (entry : ParsedEntry) :
  parse_fields line = Ok entry ->
  pool entry = unless_dash (Re.search_key "pool=" Re.non_space line) /\
  release entry = unless_dash (Re.search_key "release=" Re.non_space line) /\
  upstream entry = Re.search_key "upstream=" Re.non_space line /\
  upstream_response_time entry
  = Re.search_key "upstream_response_time=" Re.digit_dot_comma_space line /\
  raw_line entry = strip line /\
  (Re.search_key "upstream_status=" Re.non_space line = None ->
   upstream_statuses entry = []) /\
  (Re.search_status line = None -> final_status entry = None) /\
  (Re.search_key "request_time=" Re.digit_or_dot line = None ->
   request_time entry = None).
Proof.
  unfold parse_fields, rbind.
  destruct (Re.search_status line) as [code|].
  - destruct (Py.int code); [|discriminate].
    destruct (Re.search_key "request_time=" Re.digit_or_dot line) as [secs|].
    + destruct (float_of_digits_and_dots secs); [|discriminate].
      intros [= <-]. cbn. repeat split; try discriminate.
      now intros ->.
    + intros [= <-]. cbn. repeat split; try discriminate.
      now intros ->.
  - destruct (Re.search_key "request_time=" Re.digit_or_dot line) as [secs|].
    + destruct (float_of_digits_and_dots secs); [|discriminate].
      intros [= <-]. cbn. repeat split; try discriminate.
      now intros ->.
    + intros [= <-]. cbn. repeat split; try discriminate.
      now intros ->.
Qed.

Lemma counted_has_pool (line : string) (entry : ParsedEntry) :
  counted line = Some entry ->
  exists p, Re.search_key "pool=" Re.non_space line = Some p /\ p <> "-".
Proof.
  unfold counted.
  destruct (parse_fields line) as [e|] eqn:Hparse; [|discriminate].
  apply parse_fields_inv in Hparse. destruct Hparse as (Hpool & _).
  destruct (pool e) as [p|] eqn:Hp; [|discriminate]. intros _.
  unfold unless_dash in Hpool.
  destruct (Re.search_key "pool=" Re.non_space line) as [g|]; [|discriminate].
  exists g. split; [reflexivity|].
  intros ->. discriminate.
Qed.

(** C9: a line whose pool is absent, because no [pool=] pattern occurs in
    it or because its value is [-], changes neither the tracked pool nor the
    window; the registry stays as it is too, and a line that parses leaves the
    whole state as it was. *)
Theorem absent_pool_changes_nothing (line : string) (w : LogWatcher) :
  Re.search_key "pool=" Re.non_space line = None \/
  Re.search_key "pool=" Re.non_space line = Some "-" ->
  last_seen_pool (exec (process_line line) w) = last_seen_pool w /\
  request_window (exec (process_line line) w) = request_window w /\
  last_alert_times (exec (process_line line) w) = last_alert_times w /\
  (forall entry, parse_fields line = Ok entry -> exec (process_line line) w = w).
Proof.
  intros Habsent.
  assert (counted line = None) as Hc.
  { destruct (counted line) as [entry|] eqn:E; [|reflexivity].
    apply counted_has_pool in E. destruct E as (p & Hp & Hdash).
    destruct Habsent as [H | H]; rewrite H in Hp; congruence. }
  unfold exec. rewrite process_line_eq, Hc. cbn [snd].
  destruct (parse_fields line); repeat split; try discriminate; reflexivity.
Qed.

(** A line with [pool=-], and a line with no pool at all. *)
Lemma absent_pool_changes_nothing_witness :
  last_seen_pool (exec (process_line (access_line "-" "502" "502")) cold_watcher)
  = Some "blue" /\
  request_window (exec (process_line "GET /healthz") cold_watcher)
  = {| items := []; maxlen := 200 |}.
Proof.
  split.
  - apply (absent_pool_changes_nothing (access_line "-" "502" "502") cold_watcher).
    right. vm_compute. reflexivity.
  - apply (absent_pool_changes_nothing "GET /healthz" cold_watcher).
    left. vm_compute. reflexivity.
Defined.

(** ** The sliding window *)

Lemma deque_append_maxlen {A} (x : A) (d : deque A) :
  maxlen (deque_append x d) = maxlen d.
Proof. reflexivity. Qed.

Lemma deque_append_full {A} (x : A) (d : deque A) :
  length (items d) = maxlen d ->
  items (deque_append x d) = tail (items d ++ [x]).
Proof.
  intros Hfull. unfold deque_append. cbn [items].
  rewrite length_app. cbn [length].
  destruct (Nat.ltb_spec (maxlen d) (length (items d) + 1)); [reflexivity | lia].
Qed.

Lemma deque_append_room {A} (x : A) (d : deque A) :
  length (items d) < maxlen d ->
  items (deque_append x d) = items d ++ [x].
Proof.
  intros Hroom. unfold deque_append. cbn [items].
  rewrite length_app. cbn [length].
  destruct (Nat.ltb_spec (maxlen d) (length (items d) + 1)); [lia | reflexivity].
Qed.

Lemma deque_append_bounded {A} (x : A) (d : deque A) :
  length (items d) <= maxlen d ->
  length (items (deque_append x d)) <= maxlen d.
Proof.
  intros Hle. destruct (decide (length (items d) = maxlen d)) as [Hfull | Hroom].
  - rewrite deque_append_full by assumption.
    rewrite length_tl, length_app. cbn [length]. lia.
  - rewrite deque_append_room by lia. rewrite length_app. cbn [length]. lia.
Qed.

Lemma last_n_all {A} (n : nat) (l : list A) : length l <= n -> last_n n l = l.
Proof.
  intros Hle. unfold last_n. now replace (length l - n) with 0 by lia.
Qed.

Lemma length_last_n {A} (n : nat) (l : list A) :
  length (last_n n l) = Nat.min n (length l).
Proof. unfold last_n. rewrite length_drop. lia. Qed.

Lemma last_n_snoc {A} (n : nat) (l : list A) (x : A) :
  last_n n (last_n n l ++ [x]) = last_n n (l ++ [x]).
Proof.
  destruct (Nat.le_gt_cases (length l) n) as [Hle | Hgt].
  - now rewrite (last_n_all n l Hle).
  - unfold last_n. rewrite !length_app, length_drop. cbn [length].
    replace (length l - (length l - n) + 1 - n) with 1 by lia.
    replace (length l + 1 - n) with (length l - n + 1) by lia.
    rewrite <- drop_drop.
    now rewrite (drop_app_le l [x] (length l - n)) by lia.
Qed.

(** One append keeps the window equal to the last [maxlen] samples. *)
Lemma deque_append_last_n {A} (x : A) (d : deque A) (seen : list A) :
  items d = last_n (maxlen d) seen ->
  items (deque_append x d) = last_n (maxlen d) (seen ++ [x]).
Proof.
  intros Hd. rewrite <- last_n_snoc, <- Hd.
  assert (length (items d) <= maxlen d) as Hle
    by (rewrite Hd, length_last_n; lia).
  destruct (decide (length (items d) = maxlen d)) as [Hfull | Hroom].
  - rewrite deque_append_full by assumption.
    unfold last_n. rewrite length_app. cbn [length].
    replace (length (items d) + 1 - maxlen d) with 1 by lia.
    now destruct (items d ++ [x]).
  - rewrite deque_append_room by lia.
    symmetry. apply last_n_all. rewrite length_app. cbn [length]. lia.
Qed.

Lemma check_failover_window (p : string) (w : LogWatcher) :
  request_window (exec (check_failover p) w) = request_window w.
Proof.
  unfold exec. rewrite check_failover_eq.
  destruct (last_seen_pool w) as [old|]; [|reflexivity].
  destruct (String.eqb p old); [reflexivity|].
  unfold switched. now destruct (maintenance_mode w).
Qed.

Lemma check_error_rate_window (parsed : ParsedEntry) (w : LogWatcher) :
  request_window (exec (check_error_rate parsed) w)
  = deque_append (has_5xx_error parsed) (request_window w).
Proof.
  unfold exec. rewrite check_error_rate_eq. cbn [snd]. cbv zeta.
  now destruct (_ && _ && _).
Qed.

Lemma process_line_window (line : string) (w : LogWatcher) :
  request_window (exec (process_line line) w)
  = match counted line with
    | Some entry => deque_append (has_5xx_error entry) (request_window w)
    | None => request_window w
    end.
Proof.
  unfold exec at 1. rewrite process_line_eq. cbn [snd]. unfold counted.
  destruct (parse_fields line) as [entry|e]; [|reflexivity].
  fold (counted line).
  destruct (pool entry) as [p|]; [|reflexivity].
  destruct (truthy p); [|reflexivity].
  now rewrite check_error_rate_window, check_failover_window.
Qed.

(** The window after a run holds the last [maxlen] samples seen so far. *)
Lemma tail_log_file_window (arrivals : list (Q * string)) (w : LogWatcher)
    (seen : list bool) :
  items (request_window w) = last_n (maxlen (request_window w)) seen ->
  maxlen (request_window (exec (tail_log_file arrivals) w))
  = maxlen (request_window w) /\
  items (request_window (exec (tail_log_file arrivals) w))
  = last_n (maxlen (request_window w)) (seen ++ samples (arrivals.*2)).
Proof.
  revert w seen. induction arrivals as [|[now line] rest IH]; intros w seen Hw.
  - cbn. now rewrite app_nil_r.
  - rewrite tail_log_file_cons. cbn [fmap list_fmap snd samples].
    pose proof (process_line_window line (set_clock now w)) as Hstep.
    cbn [request_window set_clock] in Hstep.
    destruct (counted line) as [entry|].
    + destruct (IH (exec (process_line line) (set_clock now w))
                   (seen ++ [has_5xx_error entry])) as [Hm Hi].
      { rewrite Hstep, deque_append_maxlen. now apply deque_append_last_n. }
      rewrite Hstep, deque_append_maxlen in Hm, Hi.
      split; [exact Hm|]. now rewrite Hi, <- app_assoc.
    + destruct (IH (exec (process_line line) (set_clock now w)) seen)
        as [Hm Hi].
      { now rewrite Hstep. }
      rewrite Hstep in Hm, Hi. now split.
Qed.

Lemma LogWatcher_init_window (env : Env) (w0 : LogWatcher) :
  LogWatcher_init env = Ok w0 ->
  request_window w0 = {| items := []; maxlen := Z.to_nat (WINDOW_SIZE env) |}.
Proof.
  unfold LogWatcher_init, deque_new, rbind.
  destruct (_ || _); [discriminate|].
  destruct (WINDOW_SIZE env <? 0)%Z; [discriminate|].
  now intros [= <-].
Qed.

(** C7: after any run of the ingestion loop from a fresh watcher the
    window is no longer than its capacity and holds the last [capacity]
    samples in the order of arrival; a new sample goes to the end of a window
    that has room, and enters a full window while the oldest entry, and only
    that one, leaves. *)
Theorem sliding_window_fifo (env : Env) (w0 : LogWatcher)
    (arrivals : list (Q * string)) (parsed : ParsedEntry) :
  LogWatcher_init env = Ok w0 ->
  let capacity := Z.to_nat (WINDOW_SIZE env) in
  let w := exec (tail_log_file arrivals) w0 in
  let window := items (request_window w) in
  let window' := items (request_window (exec (check_error_rate parsed) w)) in
  length window <= capacity /\
  window = last_n capacity (samples (arrivals.*2)) /\
  (length window < capacity -> window' = window ++ [has_5xx_error parsed]) /\
  (length window = capacity -> window' = tail (window ++ [has_5xx_error parsed])) /\
  (length window = capacity -> 0 < capacity ->
   window' = tail window ++ [has_5xx_error parsed]).
Proof.
  intros Hinit capacity w window window'.
  apply LogWatcher_init_window in Hinit.
  destruct (tail_log_file_window arrivals w0 []) as [Hm Hi].
  { rewrite Hinit. reflexivity. }
  rewrite Hinit in Hm, Hi. cbn [maxlen app] in Hm, Hi.
  fold w in Hm, Hi. fold window in Hi. fold capacity in Hm, Hi.
  assert (length window <= capacity) as Hle
    by (rewrite Hi, length_last_n; lia).
  subst window'. rewrite check_error_rate_window. fold window.
  repeat split; try assumption.
  - intros Hroom. apply deque_append_room. fold window. lia.
  - intros Hfull. apply deque_append_full. fold window. lia.
  - intros Hfull Hpos. rewrite deque_append_full by (fold window; lia).
    fold window. destruct window; [cbn in Hfull; lia | reflexivity].
Qed.

(** A window of three requests after five arrivals: the last three samples,
    oldest first. *)
Lemma sliding_window_fifo_witness :
  items (request_window (exec (tail_log_file mixed_run) (sample_watcher 3 false)))
  = last_n 3 (samples (mixed_run.*2)).
Proof.
  destruct (sliding_window_fifo (sample_env 3 false) (sample_watcher 3 false)
              mixed_run failed_entry eq_refl) as (_ & Hlast & _).
  exact Hlast.
Defined.

Example mixed_run_window :
  samples (mixed_run.*2) = [false; true; true; false; true] /\
  items (request_window (exec (tail_log_file mixed_run) (sample_watcher 3 false)))
  = [true; false; true].
Proof. vm_compute. split; reflexivity. Qed.

(** ** [int] on the text of a status *)

Lemma digit_is_no_space (c : ascii) : is_digit c = true -> is_space c = false.
Proof.
  destruct c as [[] [] [] [] [] [] [] []]; intros H;
    first [reflexivity | discriminate H].
Qed.

Lemma digit_is_no_sign (c : ascii) (r : string) :
  is_digit c = true -> split_sign (String c r) = (false, String c r).
Proof.
  destruct c as [[] [] [] [] [] [] [] []]; intros H;
    first [reflexivity | discriminate H].
Qed.

Lemma lstrip_digits (s : string) : all_chars is_digit s = true -> lstrip s = s.
Proof.
  destruct s as [|c r]; [reflexivity|]. cbn [all_chars lstrip].
  intros [Hc _]%andb_prop. now rewrite (digit_is_no_space c Hc).
Qed.

Lemma rstrip_digits (s : string) : all_chars is_digit s = true -> rstrip s = s.
Proof.
  induction s as [|c r IH]; [reflexivity|]. cbn [all_chars rstrip].
  intros [Hc Hr]%andb_prop. rewrite (IH Hr).
  destruct r; [|reflexivity]. now rewrite (digit_is_no_space c Hc).
Qed.

Lemma scan_all_digits (s : string) :
  all_chars is_digit s = true -> scan_digits true s = Some (digits_of s).
Proof.
  induction s as [|c r IH]; [reflexivity|]. cbn [all_chars scan_digits].
  intros [Hc Hr]%andb_prop. now rewrite Hc, (IH Hr).
Qed.

Lemma length_digits_of (s : string) : length (digits_of s) = String.length s.
Proof.
  unfold digits_of. rewrite length_fmap.
  induction s as [|c r IH]; [reflexivity|]. cbn. now rewrite IH.
Qed.

(** [int] accepts every text of one to 4300 digits, and reads it in base
    ten. *)
Lemma int_of_digits (s : string) :
  all_chars is_digit s = true -> s <> "" ->
  String.length s <= int_max_str_digits ->
  Py.int s = Ok (decimal_value (digits_of s)).
Proof.
  intros Hall Hne Hlen. unfold Py.int, strip.
  rewrite (lstrip_digits s Hall), (rstrip_digits s Hall).
  destruct s as [|c r]; [congruence|].
  pose proof Hall as Hall'. cbn [all_chars] in Hall'.
  apply andb_prop in Hall'. destruct Hall' as [Hc Hr].
  rewrite (digit_is_no_sign c r Hc).
  cbn [scan_digits]. rewrite Hc, (scan_all_digits r Hr). cbn [fmap option_fmap option_map].
  change (digit_value c :: digits_of r) with (digits_of (String c r)).
  rewrite length_digits_of.
  now destruct (Nat.ltb_spec int_max_str_digits (String.length (String c r)));
    [lia|].
Qed.

(** ** The pattern of the final status captures three digits *)

Lemma match_status_digits (s group : string) :
  Re.match_status s = Some group ->
  all_chars is_digit group = true /\ String.length group = 3.
Proof.
  unfold Re.match_status.
  destruct s as [|q r]; [discriminate|].
  destruct (Ascii.eqb q Re.dquote); [|discriminate].
  destruct (drop_while Re.not_quote r) as [|q' [|sp [|d1 [|d2 [|d3 rest]]]]];
    try discriminate.
  destruct (Ascii.eqb sp " " && is_digit d1 && is_digit d2 && is_digit d3)
    eqn:Hd; [|discriminate].
  intros [= <-].
  apply andb_prop in Hd. destruct Hd as [Hd H3].
  apply andb_prop in Hd. destruct Hd as [Hd H2].
  apply andb_prop in Hd. destruct Hd as [_ H1].
  cbn. now rewrite H1, H2, H3.
Qed.

Lemma search_status_digits (s group : string) :
  Re.search_status s = Some group ->
  all_chars is_digit group = true /\ String.length group = 3.
Proof.
  induction s as [|c r IH]; cbn [Re.search_status].
  - destruct (Re.match_status "") eqn:E; [|discriminate].
    intros [= <-]. now apply (match_status_digits "").
  - destruct (Re.match_status (String c r)) eqn:E.
    + intros [= <-]. now apply (match_status_digits (String c r)).
    + exact IH.
Qed.

Lemma int_of_status (s group : string) :
  Re.search_status s = Some group ->
  Py.int group = Ok (decimal_value (digits_of group)).
Proof.
  intros [Hall Hlen]%search_status_digits.
  apply int_of_digits; [assumption | | ].
  - intros ->. discriminate.
  - rewrite Hlen. unfold int_max_str_digits. lia.
Qed.

(** ** [parse_log_line] and the exceptions of its body *)

(** The body raises exactly when [float] refuses the text of the request
    time: no other conversion fails, and a pattern that is not found raises
    nothing. *)
Lemma parse_fields_raises (line : string) (e : exn) :
  parse_fields line = Raise e <->
  exists secs : string,
    Re.search_key "request_time=" Re.digit_or_dot line = Some secs /\
    float_of_digits_and_dots secs = Raise e.
Proof.
  unfold parse_fields, rbind.
  destruct (Re.search_status line) as [code|] eqn:Hs.
  - rewrite (int_of_status line code Hs).
    destruct (Re.search_key "request_time=" Re.digit_or_dot line) as [secs|].
    + destruct (float_of_digits_and_dots secs) as [x|e'] eqn:Hf.
      * split; [discriminate|]. intros (s' & [= <-] & H). congruence.
      * split.
        -- intros [= <-]. now exists secs.
        -- intros (s' & [= <-] & H). congruence.
    + split; [discriminate|]. now intros (s' & H & _).
  - destruct (Re.search_key "request_time=" Re.digit_or_dot line) as [secs|].
    + destruct (float_of_digits_and_dots secs) as [x|e'] eqn:Hf.
      * split; [discriminate|]. intros (s' & [= <-] & H). congruence.
      * split.
        -- intros [= <-]. now exists secs.
        -- intros (s' & [= <-] & H). congruence.
    + split; [discriminate|]. now intros (s' & H & _).
Qed.

Lemma parse_fields_no_match (line : string) :
  no_field_matches line -> parse_fields line = Ok (empty_entry line).
Proof.
  intros (H1 & H2 & H3 & H4 & H5 & H6 & H7).
  unfold parse_fields, rbind, empty_entry.
  now rewrite H1, H2, H3, H4, H5, H6, H7.
Qed.

(** C10: [parse_log_line] returns [None] exactly when its body raises an
    exception, which only the conversion of a malformed request time does; a
    pattern that is not found leaves its field absent in the entry that is
    returned; and the call always returns, leaving the state as it was or
    with one more console line about the exception it caught. *)
Theorem parse_log_line_none_iff_exception (line : string) (w : LogWatcher) :
  (eval (parse_log_line line) w = None <-> exists e, parse_fields line = Raise e) /\
  (forall e,
      parse_fields line = Raise e <->
      exists secs : string,
        Re.search_key "request_time=" Re.digit_or_dot line = Some secs /\
        float_of_digits_and_dots secs = Raise e) /\
  (forall entry,
      eval (parse_log_line line) w = Some entry ->
      (Re.search_key "pool=" Re.non_space line = None -> pool entry = None) /\
      (Re.search_key "release=" Re.non_space line = None -> release entry = None) /\
      (Re.search_key "upstream_status=" Re.non_space line = None ->
       upstream_statuses entry = []) /\
      (Re.search_status line = None -> final_status entry = None) /\
      (Re.search_key "upstream=" Re.non_space line = None -> upstream entry = None) /\
      (Re.search_key "request_time=" Re.digit_or_dot line = None ->
       request_time entry = None) /\
      (Re.search_key "upstream_response_time=" Re.digit_dot_comma_space line = None ->
       upstream_response_time entry = None)) /\
  (no_field_matches line ->
   eval (parse_log_line line) w = Some (empty_entry line)) /\
  (parse_log_line line w = (eval (parse_log_line line) w, w) \/
   exists e,
     parse_log_line line w
     = (None, set_trace (trace w ++ [Stdout (ParseFailed e)]) w)).
Proof.
  unfold eval. rewrite parse_log_line_eq.
  split; [|split; [|split; [|split]]].
  - destruct (parse_fields line) as [entry|e]; cbn [fst].
    + split; [discriminate | intros [e He]; discriminate].
    + split; [now exists e | reflexivity].
  - intros e. apply parse_fields_raises.
  - intros entry.
    destruct (parse_fields line) as [parsed|e] eqn:Hparse; cbn [fst];
      [|discriminate].
    intros [= ->].
    destruct (parse_fields_inv line entry Hparse)
      as (Hpool & Hrel & Hup & Hurt & _ & Hus & Hfs & Hrt).
    rewrite Hpool, Hrel, Hup, Hurt.
    repeat split; try assumption; now intros ->.
  - intros Hnone. now rewrite (parse_fields_no_match line Hnone).
  - destruct (parse_fields line) as [entry|e]; cbn [fst];
      [left; reflexivity | right; now exists e].
Qed.

(** A line with a request time that [float] refuses is dropped; a line
    that matches no pattern is parsed into the empty entry. *)
Lemma parse_log_line_none_iff_exception_witness :
  eval (parse_log_line "GET /healthz") cold_watcher
  = Some (empty_entry "GET /healthz").
Proof.
  destruct (parse_log_line_none_iff_exception "GET /healthz" cold_watcher)
    as (_ & _ & _ & Hempty & _).
  apply Hempty. vm_compute. repeat split; reflexivity.
Defined.

Example malformed_request_time_is_dropped :
  parse_log_line "pool=blue request_time=1.2.3" cold_watcher
  = (None,
     set_trace
       [Stdout (ParseFailed (ValueError "could not convert string to float"))]
       cold_watcher).
Proof. vm_compute. reflexivity. Qed.

(** ** The classification of an entry *)

Lemma is_5xx_range (n : Z) : is_5xx n = true <-> (500 <= n < 600)%Z.
Proof. unfold is_5xx. rewrite andb_true_iff, Z.leb_le, Z.ltb_lt. tauto. Qed.

Lemma upstream_5xx_iff (statuses : list string) :
  upstream_5xx statuses = true <->
  exists (token : string) (n : Z),
    In token statuses /\ Py.int token = Ok n /\ (500 <= n < 600)%Z.
Proof.
  induction statuses as [|status rest IH]; cbn [upstream_5xx].
  - split; [discriminate | intros (t & n & [] & _)].
  - destruct (Py.int status) as [code|e] eqn:Hint.
    + destruct (is_5xx code) eqn:Hrange.
      * split; [intros _ | reflexivity].
        exists status, code. split; [now left|]. split; [assumption|].
        now apply is_5xx_range.
      * rewrite IH. split.
        -- intros (t & n & Hin & Hn & Hr). exists t, n. split; [now right | auto].
        -- intros (t & n & [<- | Hin] & Hn & Hr).
           ++ rewrite Hint in Hn. injection Hn as <-.
              apply is_5xx_range in Hr. congruence.
           ++ now exists t, n.
    + rewrite IH. split.
      * intros (t & n & Hin & Hn & Hr). exists t, n. split; [now right | auto].
      * intros (t & n & [<- | Hin] & Hn & Hr); [congruence | now exists t, n].
Qed.

(** C4: an entry is classified as an error exactly when one of its
    upstream tokens is read by [int] as a number from 500 to 599, or its final
    status is such a number; a token [int] refuses counts for nothing.  The
    entry of a request that was retried, with upstream statuses 502 and 200
    and the final status 200, is an error. *)
Theorem has_5xx_error_iff (parsed : ParsedEntry) :
  (has_5xx_error parsed = true <->
   (exists (token : string) (n : Z),
       In token (upstream_statuses parsed) /\
       Py.int token = Ok n /\ (500 <= n < 600)%Z) \/
   (exists n : Z, final_status parsed = Some n /\ (500 <= n < 600)%Z)) /\
  (exists retried : ParsedEntry,
      parse_fields (access_line "blue" "200" "502,200") = Ok retried /\
      upstream_statuses retried = ["502"; "200"] /\
      final_status retried = Some 200%Z /\
      has_5xx_error retried = true).
Proof.
  split.
  - unfold has_5xx_error. rewrite <- upstream_5xx_iff.
    destruct (final_status parsed) as [status|].
    + destruct (negb (status =? 0)%Z && is_5xx status) eqn:Hfinal.
      * split; [intros _ | reflexivity]. right. exists status.
        apply andb_prop in Hfinal. destruct Hfinal as [_ Hr].
        split; [reflexivity | now apply is_5xx_range].
      * split; [now left|]. intros [Hup | (n & [= <-] & Hr)]; [assumption|].
        exfalso. apply andb_false_iff in Hfinal.
        destruct Hfinal as [Hz | Hn].
        -- apply negb_false_iff, Z.eqb_eq in Hz. lia.
        -- apply is_5xx_range in Hr. congruence.
    + split; [now left|]. now intros [Hup | (n & [=] & _)].
  - eexists. vm_compute. repeat split; reflexivity.
Qed.

(** * Further properties of the parser *)

Lemma append_cons (c : ascii) (s t : string) :
  String c s +:+ t = String c (s +:+ t).
Proof. reflexivity. Qed.

Lemma append_empty (t : string) : "" +:+ t = t.
Proof. reflexivity. Qed.

(** ** Splitting the upstream statuses *)

Lemma split_comma_nonempty (s : string) : split_comma s <> [].
Proof.
  destruct s as [|c r]; cbn [split_comma]; [discriminate|].
  destruct (Ascii.eqb c ","); [discriminate|].
  now destruct (split_comma r).
Qed.

Lemma join_comma_cons (token : string) (rest : list string) :
  rest <> [] -> join_comma (token :: rest) = token +:+ String "," (join_comma rest).
Proof. destruct rest; [congruence | reflexivity]. Qed.

Lemma join_split_comma (s : string) : join_comma (split_comma s) = s.
Proof.
  induction s as [|c r IH]; [reflexivity|]. cbn [split_comma].
  pose proof (split_comma_nonempty r) as Hr.
  destruct (Ascii.eqb_spec c ",") as [-> | Hne].
  - now rewrite (join_comma_cons "" _ Hr), IH, append_empty.
  - destruct (split_comma r) as [|h t] eqn:E; [congruence|].
    destruct t as [|h' t'].
    + cbn [join_comma] in *. now rewrite IH.
    + rewrite (join_comma_cons (String c h)) by discriminate.
      rewrite (join_comma_cons h) in IH by discriminate.
      now rewrite append_cons, IH.
Qed.

(** The tokens of [split(',')] hold no comma and, joined by commas again,
    give the text back, so no character of the field is lost; there is always
    at least one token. *)
Theorem split_comma_join (s : string) :
  join_comma (split_comma s) = s /\
  Forall (fun token => all_chars not_comma token = true) (split_comma s) /\
  split_comma s <> [].
Proof.
  split; [apply join_split_comma|]. split; [|apply split_comma_nonempty].
  induction s as [|c r IH]; [now repeat constructor|]. cbn [split_comma].
  destruct (Ascii.eqb c ",") eqn:Hc.
  - constructor; [reflexivity | exact IH].
  - destruct (split_comma r) as [|h t].
    + repeat constructor. cbn. unfold not_comma. now rewrite Hc.
    + inversion IH as [|? ? Hh Ht]; subst. constructor; [|assumption].
      cbn [all_chars]. unfold not_comma at 1. now rewrite Hc.
Qed.

(** ** What a search finds *)

Lemma strip_prefix_Some (key s rest : string) :
  Re.strip_prefix key s = Some rest <-> s = key +:+ rest.
Proof.
  revert s. induction key as [|k key IH]; intros s; cbn [Re.strip_prefix].
  - rewrite append_empty. split; [now intros [= ->] | now intros ->].
  - rewrite append_cons. destruct s as [|c s]; [split; discriminate|].
    destruct (Ascii.eqb_spec k c) as [-> | Hne].
    + rewrite IH. split; [now intros -> | now intros [= ->]].
    + split; [discriminate | intros [= -> _]; congruence].
Qed.

Lemma take_drop_while (p : ascii -> bool) (s : string) :
  s = take_while p s +:+ drop_while p s /\
  all_chars p (take_while p s) = true /\
  stops p (drop_while p s).
Proof.
  induction s as [|c r (IH1 & IH2 & IH3)]; [now cbn|].
  cbn [take_while drop_while]. destruct (p c) eqn:Hc.
  - rewrite append_cons. cbn [all_chars]. rewrite Hc, IH2.
    split; [now f_equal | now split].
  - rewrite append_empty. now cbn.
Qed.

Lemma take_while_stops (p : ascii -> bool) (g post : string) :
  all_chars p g = true -> stops p post -> take_while p (g +:+ post) = g.
Proof.
  induction g as [|c g IH]; cbn [all_chars].
  - intros _ Hpost. rewrite append_empty. destruct post as [|c r]; [reflexivity|].
    cbn in Hpost. cbn. now rewrite Hpost.
  - intros [Hc Hg]%andb_prop Hpost. rewrite append_cons. cbn [take_while].
    now rewrite Hc, IH.
Qed.

(** The pattern matches at the start of [s] exactly when [s] is the key,
    a non-empty run of the class, and a rest on which the run stops. *)
Lemma match_key_Some (key : string) (cls : ascii -> bool) (s group : string) :
  Re.match_key key cls s = Some group <->
  group <> "" /\ all_chars cls group = true /\
  exists post, s = key +:+ group +:+ post /\ stops cls post.
Proof.
  unfold Re.match_key. split.
  - destruct (Re.strip_prefix key s) as [rest|] eqn:Hp; [|discriminate].
    apply strip_prefix_Some in Hp.
    destruct (take_drop_while cls rest) as (Hsplit & Hall & Hstop).
    destruct (take_while cls rest) as [|c g] eqn:Ht; [discriminate|].
    intros [= <-]. split; [discriminate|]. split; [assumption|].
    exists (drop_while cls rest). split; [|assumption].
    now rewrite <- Hsplit.
  - intros (Hne & Hall & post & -> & Hstop).
    rewrite (proj2 (strip_prefix_Some key _ (group +:+ post)) eq_refl).
    rewrite (take_while_stops cls group post Hall Hstop).
    destruct group; [congruence | reflexivity].
Qed.

Lemma match_key_None (key : string) (cls : ascii -> bool) (s : string) :
  Re.match_key key cls s = None <->
  forall (c : ascii) (rest : string), s = key +:+ String c rest -> cls c = false.
Proof.
  split.
  - intros Hnone c rest ->. destruct (cls c) eqn:Hc; [|reflexivity].
    exfalso. unfold Re.match_key in Hnone.
    rewrite (proj2 (strip_prefix_Some key _ (String c rest)) eq_refl) in Hnone.
    cbn [take_while] in Hnone. rewrite Hc in Hnone. discriminate.
  - intros Hno. destruct (Re.match_key key cls s) as [g|] eqn:E; [|reflexivity].
    apply match_key_Some in E. destruct E as (Hne & Hall & post & -> & _).
    destruct g as [|c g]; [congruence|].
    cbn [all_chars] in Hall. apply andb_prop in Hall. destruct Hall as [Hc _].
    rewrite (Hno c (g +:+ post) eq_refl) in Hc. discriminate.
Qed.

Lemma search_key_spec (key : string) (cls : ascii -> bool) (s : string) :
  (forall group : string,
      Re.search_key key cls s = Some group ->
      group <> "" /\ all_chars cls group = true /\
      exists pre post : string,
        s = pre +:+ key +:+ group +:+ post /\ stops cls post /\
        forall (pre' : string) (c : ascii) (rest : string),
          s = pre' +:+ key +:+ String c rest ->
          String.length pre' < String.length pre -> cls c = false) /\
  (Re.search_key key cls s = None <->
   forall (pre : string) (c : ascii) (rest : string),
     s = pre +:+ key +:+ String c rest -> cls c = false).
Proof.
  induction s as [|a s [IHs IHn]].
  - split.
    + intros group. cbn [Re.search_key].
      destruct (Re.match_key key cls "") as [g|] eqn:E; [|discriminate].
      intros [= <-]. apply match_key_Some in E.
      destruct E as (Hne & Hall & post & Hs & Hstop).
      split; [assumption|]. split; [assumption|].
      exists "", post. split; [exact Hs|]. split; [assumption|].
      intros pre' c rest _ Hlt. cbn in Hlt. lia.
    + cbn [Re.search_key].
      destruct (Re.match_key key cls "") as [g|] eqn:E.
      * split; [discriminate|]. intros Hno. exfalso.
        apply match_key_Some in E.
        destruct E as (Hne & Hall & post & Hs & _).
        destruct g as [|c g]; [congruence|].
        cbn [all_chars] in Hall. apply andb_prop in Hall.
        destruct Hall as [Hc _].
        rewrite (Hno "" c (g +:+ post) Hs) in Hc. discriminate.
      * split; [|reflexivity]. intros _ pre c rest Hs.
        destruct pre; [|discriminate].
        exact (proj1 (match_key_None key cls "") E c rest Hs).
  - split.
    + intros group. cbn [Re.search_key].
      destruct (Re.match_key key cls (String a s)) as [g|] eqn:E.
      * intros [= <-]. apply match_key_Some in E.
        destruct E as (Hne & Hall & post & Hs & Hstop).
        split; [assumption|]. split; [assumption|].
        exists "", post. split; [exact Hs|]. split; [assumption|].
        intros pre' c rest _ Hlt. cbn in Hlt. lia.
      * intros Hfound.
        destruct (IHs group Hfound)
          as (Hne & Hall & pre & post & Hs & Hstop & Hleft).
        split; [assumption|]. split; [assumption|].
        exists (String a pre), post. split; [now rewrite append_cons, <- Hs|].
        split; [assumption|].
        intros pre' c rest Hs' Hlt. destruct pre' as [|a' pre'].
        -- exact (proj1 (match_key_None key cls (String a s)) E c rest Hs').
        -- rewrite append_cons in Hs'. injection Hs' as _ Hs'.
           apply (Hleft pre' c rest Hs'). cbn in Hlt. lia.
    + cbn [Re.search_key].
      destruct (Re.match_key key cls (String a s)) as [g|] eqn:E.
      * split; [discriminate|]. intros Hno. exfalso.
        apply match_key_Some in E.
        destruct E as (Hne & Hall & post & Hs & _).
        destruct g as [|c g]; [congruence|].
        cbn [all_chars] in Hall. apply andb_prop in Hall.
        destruct Hall as [Hc _].
        rewrite (Hno "" c (g +:+ post) Hs) in Hc. discriminate.
      * rewrite IHn. split.
        -- intros Hno pre c rest Hs. destruct pre as [|a' pre].
           ++ exact (proj1 (match_key_None key cls (String a s)) E c rest Hs).
           ++ rewrite append_cons in Hs. injection Hs as _ Hs.
              exact (Hno pre c rest Hs).
        -- intros Hno pre c rest Hs.
           apply (Hno (String a pre) c rest). now rewrite append_cons, <- Hs.
Qed.

(** [re.search] for a key and a class: the group is the longest run of the
    class right after the leftmost occurrence of the key that a character of
    the class follows; nothing is found exactly when no occurrence of the key
    is followed by such a character. *)
Theorem search_key_leftmost_longest (key : string) (cls : ascii -> bool)
    (s : string) :
  (forall group : string,
      Re.search_key key cls s = Some group ->
      group <> "" /\ all_chars cls group = true /\
      exists pre post : string,
        s = pre +:+ key +:+ group +:+ post /\ stops cls post /\
        forall (pre' : string) (c : ascii) (rest : string),
          s = pre' +:+ key +:+ String c rest ->
          String.length pre' < String.length pre -> cls c = false) /\
  (Re.search_key key cls s = None <->
   forall (pre : string) (c : ascii) (rest : string),
     s = pre +:+ key +:+ String c rest -> cls c = false).
Proof. exact (search_key_spec key cls s). Qed.


(** The pool of the first sample line is found after the key, up to the
    next blank. *)
Lemma search_key_leftmost_longest_witness :
  "blue" <> "" /\ all_chars Re.non_space "blue" = true.
Proof.
  destruct (search_key_leftmost_longest "pool=" Re.non_space
              (access_line "blue" "200" "200")) as [Hfound _].
  destruct (Hfound "blue" eq_refl) as (Hne & Hall & _).
  now split.
Defined.

Lemma search_key_group (key : string) (cls : ascii -> bool) (s group : string) :
  Re.search_key key cls s = Some group ->
  group <> "" /\ all_chars cls group = true.
Proof.
  intros H. destruct (search_key_spec key cls s) as [Hfound _].
  destruct (Hfound group H) as (Hne & Hall & _). now split.
Qed.

(** ** The fields of an entry *)

Lemma digit_value_range (c : ascii) :
  is_digit c = true -> (0 <= digit_value c <= 9)%Z.
Proof.
  unfold is_digit, digit_value.
  intros [Hlo Hhi]%andb_prop. apply N.leb_le in Hlo, Hhi. lia.
Qed.

Lemma parse_fields_final_status (line : string) (entry : ParsedEntry) :
  parse_fields line = Ok entry ->
  final_status entry
  = (fun group => decimal_value (digits_of group)) <$> Re.search_status line.
Proof.
  unfold parse_fields, rbind.
  destruct (Re.search_status line) as [code|] eqn:Hs.
  - rewrite (int_of_status line code Hs).
    destruct (Re.search_key "request_time=" Re.digit_or_dot line) as [secs|].
    + destruct (float_of_digits_and_dots secs); [|discriminate].
      now intros [= <-].
    + now intros [= <-].
  - destruct (Re.search_key "request_time=" Re.digit_or_dot line) as [secs|].
    + destruct (float_of_digits_and_dots secs); [|discriminate].
      now intros [= <-].
    + now intros [= <-].
Qed.

(** The final status of an entry is present exactly when the pattern of
    the status matches, and is then a number from 0 to 999: the three digits
    that follow the quoted request. *)
Theorem final_status_three_digits (line : string) (entry : ParsedEntry) :
  parse_fields line = Ok entry ->
  (final_status entry = None <-> Re.search_status line = None) /\
  (forall n : Z, final_status entry = Some n -> (0 <= n <= 999)%Z).
Proof.
  intros Hparse. rewrite (parse_fields_final_status line entry Hparse).
  destruct (Re.search_status line) as [group|] eqn:Hs; cbn.
  - split; [split; discriminate|]. intros n [= <-].
    destruct (search_status_digits line group Hs) as [Hall Hlen].
    destruct group as [|d1 [|d2 [|d3 [|d4 rest]]]]; try discriminate.
    cbn [all_chars] in Hall.
    apply andb_prop in Hall. destruct Hall as [H1 Hall].
    apply andb_prop in Hall. destruct Hall as [H2 Hall].
    apply andb_prop in Hall. destruct Hall as [H3 _].
    apply digit_value_range in H1, H2, H3.
    unfold decimal_value, digits_of. cbn. lia.
  - split; [split; reflexivity | discriminate].
Qed.

Lemma final_status_three_digits_witness : (0 <= 502 <= 999)%Z.
Proof.
  destruct (final_status_three_digits (access_line "blue" "502" "502") _
              (eq_refl : parse_fields (access_line "blue" "502" "502") = Ok _))
    as [_ Hrange].
  exact (Hrange 502%Z eq_refl).
Defined.

(** A pool that is present is a token: not empty, not the dash, without
    white space.  The truth test of the ingestion loop on the pool is therefore
    a test of presence, and a parsed line counts exactly when its pool is
    present. *)
Theorem present_pool_is_a_token (line : string) (entry : ParsedEntry) :
  parse_fields line = Ok entry ->
  (forall p : string,
      pool entry = Some p ->
      p <> "" /\ p <> "-" /\ all_chars Re.non_space p = true /\
      truthy p = true) /\
  (counted line = Some entry <-> pool entry <> None).
Proof.
  intros Hparse.
  assert (forall p : string,
             pool entry = Some p ->
             p <> "" /\ p <> "-" /\ all_chars Re.non_space p = true /\
             truthy p = true) as Htoken.
  { intros p Hp.
    destruct (parse_fields_inv line entry Hparse) as (Hpool & _).
    rewrite Hp in Hpool. unfold unless_dash in Hpool.
    destruct (Re.search_key "pool=" Re.non_space line) as [g|] eqn:Hs;
      [|discriminate].
    destruct (String.eqb_spec g "-") as [-> | Hdash]; [discriminate|].
    injection Hpool as ->.
    destruct (search_key_group _ _ _ _ Hs) as [Hne Hall].
    repeat split; try assumption.
    unfold truthy. now destruct (String.eqb_spec g ""). }
  split; [exact Htoken|].
  unfold counted. rewrite Hparse.
  destruct (pool entry) as [p|] eqn:Hp.
  - destruct (Htoken p eq_refl) as (_ & _ & _ & Ht). rewrite Ht.
    split; [discriminate | reflexivity].
  - split; [discriminate | congruence].
Qed.

Lemma present_pool_is_a_token_witness :
  all_chars Re.non_space "green" = true /\ truthy "green" = true.
Proof.
  destruct (present_pool_is_a_token (access_line "green" "200" "200") _
              (eq_refl : parse_fields (access_line "green" "200" "200") = Ok _))
    as [Htoken _].
  destruct (Htoken "green" eq_refl) as (_ & _ & Hall & Htruthy).
  now split.
Defined.

(** ** The lines the parser drops *)

Lemma all_chars_app (p : ascii -> bool) (a b : string) :
  all_chars p (a +:+ b) = all_chars p a && all_chars p b.
Proof.
  induction a as [|c a IH]; [reflexivity|].
  rewrite append_cons. cbn [all_chars]. now rewrite IH, andb_assoc.
Qed.

Lemma count_dots_app (a b : string) :
  count_dots (a +:+ b) = count_dots a + count_dots b.
Proof.
  induction a as [|c a IH]; [reflexivity|].
  rewrite append_cons. cbn [count_dots]. rewrite IH. lia.
Qed.

Lemma digit_is_no_dot (c : ascii) : is_digit c = true -> Ascii.eqb c "." = false.
Proof.
  destruct c as [[] [] [] [] [] [] [] []]; intros H;
    first [reflexivity | discriminate H].
Qed.

Lemma digits_have_no_dot (s : string) :
  all_chars is_digit s = true -> count_dots s = 0.
Proof.
  induction s as [|c r IH]; [reflexivity|]. cbn [all_chars count_dots].
  intros [Hc Hr]%andb_prop. now rewrite (digit_is_no_dot c Hc), (IH Hr).
Qed.

Lemma no_dot_all_digits (s : string) :
  all_chars Re.digit_or_dot s = true -> count_dots s = 0 ->
  all_chars is_digit s = true.
Proof.
  induction s as [|c r IH]; [reflexivity|]. cbn [all_chars count_dots].
  unfold Re.digit_or_dot at 1. intros [Hc Hr]%andb_prop Hdots.
  destruct (Ascii.eqb c "."); [cbn in Hdots; lia|].
  rewrite orb_false_r in Hc. rewrite Hc. cbn. apply IH; [assumption | lia].
Qed.

(** On a non-empty text of digits and dots, [float] fails exactly on the
    lone dot and on a text with two dots or more. *)
Lemma float_refuses_iff (s : string) :
  all_chars Re.digit_or_dot s = true -> s <> "" ->
  (exists e, float_of_digits_and_dots s = Raise e) <->
  2 <= count_dots s \/ s = ".".
Proof.
  intros Hall Hne. unfold float_of_digits_and_dots.
  destruct (take_drop_while is_digit s) as (Hsplit & Hwhole & Hstop).
  set (whole := take_while is_digit s) in *.
  set (rest := drop_while is_digit s) in *.
  assert (count_dots s = count_dots rest) as Hdots
    by (rewrite Hsplit, count_dots_app, (digits_have_no_dot whole Hwhole); lia).
  rewrite Hsplit, all_chars_app in Hall.
  apply andb_prop in Hall. destruct Hall as [_ Hrest].
  destruct rest as [|c frac].
  - assert (s = whole) as Hs.
    { rewrite Hsplit. clear. induction whole as [|c w IH]; [reflexivity|].
      rewrite append_cons. now f_equal. }
    destruct whole as [|d w]; [congruence|].
    split; [intros [e He]; discriminate|].
    intros [Htwo | Hdot]; [cbn in Hdots; lia|].
    exfalso. rewrite Hs in Hdot. injection Hdot as -> _.
    cbn in Hwhole. discriminate.
  - cbn [stops] in Hstop. cbn [all_chars] in Hrest.
    apply andb_prop in Hrest. destruct Hrest as [Hc Hfrac].
    unfold Re.digit_or_dot in Hc. rewrite Hstop in Hc. cbn [orb] in Hc.
    rewrite Hc. cbn [andb]. cbn [count_dots] in Hdots. rewrite Hc in Hdots.
    apply Ascii.eqb_eq in Hc. subst c.
    destruct (all_chars is_digit frac) eqn:Hdigits; cbn [andb].
    + pose proof (digits_have_no_dot frac Hdigits) as Hzero.
      destruct (String.eqb_spec whole "") as [Hw | Hw]; cbn [andb negb].
      * destruct (String.eqb_spec frac "") as [Hf | Hf]; cbn [negb].
        -- split; [intros _; right | intros _; now eexists].
           rewrite Hsplit, Hw, Hf. reflexivity.
        -- split; [intros [e He]; discriminate|].
           intros [Htwo | Hdot]; [lia|]. exfalso.
           rewrite Hsplit, Hw, append_empty in Hdot. congruence.
      * split; [intros [e He]; discriminate|].
        intros [Htwo | Hdot]; [lia|]. exfalso.
        rewrite Hsplit in Hdot. destruct whole as [|d w]; [congruence|].
        rewrite append_cons in Hdot. injection Hdot as -> _.
        cbn in Hwhole. discriminate.
    + split; [intros _; left | intros _; now eexists].
      destruct (count_dots frac) eqn:Hz; [|lia].
      rewrite (no_dot_all_digits frac Hfrac Hz) in Hdigits. discriminate.
Qed.

(** A line is dropped exactly when the text captured after
    [request_time=] is a lone dot or holds two dots or more.  Such a line
    only leaves the console line of the failure: whatever its pool and
    statuses, it is no failover and no sample of the window. *)
Theorem dropped_line_iff (line : string) (w : LogWatcher) :
  (eval (parse_log_line line) w = None <->
   exists secs : string,
     Re.search_key "request_time=" Re.digit_or_dot line = Some secs /\
     (2 <= count_dots secs \/ secs = ".")) /\
  (eval (parse_log_line line) w = None ->
   exists e,
     exec (process_line line) w
     = set_trace (trace w ++ [Stdout (ParseFailed e)]) w).
Proof.
  unfold eval, exec. rewrite parse_log_line_eq, process_line_eq. cbn [snd].
  split.
  - destruct (parse_fields line) as [entry|e] eqn:Hparse; cbn [fst].
    + split; [discriminate|]. intros (secs & Hs & Hbad). exfalso.
      destruct (search_key_group _ _ _ _ Hs) as [Hne Hall].
      apply (float_refuses_iff secs Hall Hne) in Hbad. destruct Hbad as [e He].
      assert (parse_fields line = Raise e) as Hraise
        by (apply parse_fields_raises; now exists secs).
      congruence.
    + split; [intros _ | reflexivity].
      apply parse_fields_raises in Hparse. destruct Hparse as (secs & Hs & He).
      exists secs. split; [assumption|].
      destruct (search_key_group _ _ _ _ Hs) as [Hne Hall].
      apply (float_refuses_iff secs Hall Hne). now exists e.
  - destruct (parse_fields line) as [entry|e]; cbn [fst]; [discriminate|].
    intros _. now exists e.
Qed.

Example dropped_line_hides_failover :
  last_seen_pool
    (exec (process_line "pool=green request_time=1.2.3") cold_watcher)
  = Some "blue".
Proof. vm_compute. reflexivity. Qed.

(** ** What the search of the final status finds *)

Lemma drop_while_stops (p : ascii -> bool) (g post : string) :
  all_chars p g = true -> stops p post -> drop_while p (g +:+ post) = post.
Proof.
  induction g as [|c g IH]; cbn [all_chars].
  - intros _ Hpost. rewrite append_empty. destruct post as [|c r]; [reflexivity|].
    cbn in Hpost. cbn. now rewrite Hpost.
  - intros [Hc Hg]%andb_prop Hpost. rewrite append_cons. cbn [drop_while].
    now rewrite Hc, IH.
Qed.

Lemma match_status_iff (s g : string) :
  Re.match_status s = Some g <-> exists q post, status_at s q g post.
Proof.
  unfold Re.match_status, status_at. split.
  - destruct s as [|a r]; [discriminate|].
    destruct (Ascii.eqb_spec a Re.dquote) as [-> | Hne]; [|discriminate].
    destruct (take_drop_while Re.not_quote r) as (Hsplit & Hq & Hstop).
    destruct (drop_while Re.not_quote r)
      as [|q' [|sp [|d1 [|d2 [|d3 rest]]]]]; try discriminate.
    destruct (Ascii.eqb sp " " && is_digit d1 && is_digit d2 && is_digit d3)
      eqn:Hd; [|discriminate].
    intros [= <-].
    apply andb_prop in Hd. destruct Hd as [Hd H3].
    apply andb_prop in Hd. destruct Hd as [Hd H2].
    apply andb_prop in Hd. destruct Hd as [Hsp H1].
    apply Ascii.eqb_eq in Hsp. subst sp.
    cbn [stops] in Hstop. unfold Re.not_quote in Hstop.
    apply negb_false_iff, Ascii.eqb_eq in Hstop. subst q'.
    exists (take_while Re.not_quote r), rest.
    split; [now rewrite Hsplit at 1|]. split; [assumption|].
    split; [reflexivity|]. cbn. now rewrite H1, H2, H3.
  - intros (q & post & -> & Hq & Hlen & Hdigits).
    rewrite Ascii.eqb_refl.
    rewrite (drop_while_stops Re.not_quote q _ Hq)
      by (cbn; unfold Re.not_quote; now rewrite Ascii.eqb_refl).
    destruct g as [|d1 [|d2 [|d3 [|d4 more]]]]; try discriminate.
    cbn [all_chars] in Hdigits.
    apply andb_prop in Hdigits. destruct Hdigits as [H1 Hdigits].
    apply andb_prop in Hdigits. destruct Hdigits as [H2 Hdigits].
    apply andb_prop in Hdigits. destruct Hdigits as [H3 _].
    rewrite !append_cons. now rewrite H1, H2, H3.
Qed.

Lemma search_status_spec (s : string) :
  (forall g : string,
      Re.search_status s = Some g ->
      exists pre rest q post : string,
        s = pre +:+ rest /\ status_at rest q g post /\
        forall pre' rest' q' g' post' : string,
          s = pre' +:+ rest' -> String.length pre' < String.length pre ->
          ~ status_at rest' q' g' post') /\
  (Re.search_status s = None <->
   forall pre rest q g post : string,
     s = pre +:+ rest -> ~ status_at rest q g post).
Proof.
  induction s as [|a s [IHs IHn]].
  - cbn [Re.search_status]. split.
    + intros g. discriminate.
    + split; [|reflexivity]. intros _ pre rest q g post Hs (Hrest & _).
      destruct pre; [|discriminate]. rewrite append_empty in Hs.
      subst rest. discriminate.
  - cbn [Re.search_status].
    destruct (Re.match_status (String a s)) as [g0|] eqn:E.
    + split.
      * intros g [= <-]. apply match_status_iff in E.
        destruct E as (q & post & Hat).
        exists "", (String a s), q, post. split; [reflexivity|].
        split; [exact Hat|].
        intros pre' rest' q' g' post' _ Hlt. cbn in Hlt. lia.
      * split; [discriminate|]. intros Hno. exfalso.
        apply match_status_iff in E. destruct E as (q & post & Hat).
        exact (Hno "" (String a s) q g0 post eq_refl Hat).
    + assert (forall q g post, ~ status_at (String a s) q g post) as Hhere.
      { intros q g post Hat.
        assert (Re.match_status (String a s) = Some g) as Hm
          by (apply match_status_iff; now exists q, post).
        congruence. }
      split.
      * intros g Hfound.
        destruct (IHs g Hfound) as (pre & rest & q & post & Hs & Hat & Hleft).
        exists (String a pre), rest, q, post.
        split; [now rewrite append_cons, <- Hs|]. split; [exact Hat|].
        intros pre' rest' q' g' post' Hs' Hlt. destruct pre' as [|a' pre'].
        -- rewrite append_empty in Hs'. subst rest'. apply Hhere.
        -- rewrite append_cons in Hs'. injection Hs' as _ Hs'.
           apply (Hleft pre' rest' q' g' post' Hs'). cbn in Hlt. lia.
      * rewrite IHn. split.
        -- intros Hno pre rest q g post Hs. destruct pre as [|a' pre].
           ++ rewrite append_empty in Hs. subst rest. apply Hhere.
           ++ rewrite append_cons in Hs. injection Hs as _ Hs.
              exact (Hno pre rest q g post Hs).
        -- intros Hno pre rest q g post Hs.
           apply (Hno (String a pre) rest q g post).
           now rewrite append_cons, <- Hs.
Qed.

(** The search of the final status returns the three digits that follow
    the leftmost quoted text which a space and three digits follow; it finds
    nothing exactly when the line holds no such place.  A quoted text that is
    followed by something else is passed over. *)
Theorem search_status_leftmost (s : string) :
  (forall g : string,
      Re.search_status s = Some g ->
      exists pre rest q post : string,
        s = pre +:+ rest /\ status_at rest q g post /\
        forall pre' rest' q' g' post' : string,
          s = pre' +:+ rest' -> String.length pre' < String.length pre ->
          ~ status_at rest' q' g' post') /\
  (Re.search_status s = None <->
   forall pre rest q g post : string,
     s = pre +:+ rest -> ~ status_at rest q g post).
Proof. exact (search_status_spec s). Qed.

(** * Further properties of the ingestion loop *)

(** ** Runs and what they preserve *)

(** A relation between states that holds across every step of the loop
    holds across a run. *)
Lemma run_preserves (R : LogWatcher -> LogWatcher -> Prop) :
  (forall w, R w w) ->
  (forall w1 w2 w3, R w1 w2 -> R w2 w3 -> R w1 w3) ->
  (forall now w, R w (set_clock now w)) ->
  (forall p w, R w (exec (check_failover p) w)) ->
  (forall parsed w, R w (exec (check_error_rate parsed) w)) ->
  (forall e w, R w (set_trace (trace w ++ [Stdout (ParseFailed e)]) w)) ->
  forall arrivals w, R w (exec (tail_log_file arrivals) w).
Proof.
  intros Hrefl Htrans Hclock Hfail Hrate Hparse.
  induction arrivals as [|[now line] rest IH]; intros w; [apply Hrefl|].
  rewrite tail_log_file_cons.
  eapply Htrans; [|apply IH].
  eapply Htrans; [apply (Hclock now)|].
  unfold exec at 1. rewrite process_line_eq. cbn [snd].
  destruct (parse_fields line) as [entry|e]; [|apply Hparse].
  destruct (counted line) as [counted_entry|]; [|apply Hrefl].
  eapply Htrans; [apply Hfail | apply Hrate].
Qed.

Lemma adds_only_refl (ok : event -> Prop) (w : LogWatcher) : adds_only ok w w.
Proof. exists []. split; [now rewrite app_nil_r | constructor]. Qed.

Lemma adds_only_trans (ok : event -> Prop) (w1 w2 w3 : LogWatcher) :
  adds_only ok w1 w2 -> adds_only ok w2 w3 -> adds_only ok w1 w3.
Proof.
  intros (n1 & T1 & F1) (n2 & T2 & F2). exists (n1 ++ n2). split.
  - now rewrite T2, T1, app_assoc.
  - now apply Forall_app.
Qed.

Lemma adds_only_same_trace (ok : event -> Prop) (w w' : LogWatcher) :
  trace w' = trace w -> adds_only ok w w'.
Proof. intros H. exists []. split; [now rewrite app_nil_r | constructor]. Qed.

Lemma adds_only_step (ok : event -> Prop) (w w' : LogWatcher)
    (new : list event) :
  trace w' = trace w ++ new -> Forall ok new -> adds_only ok w w'.
Proof. intros H F. now exists new. Qed.

(** ** The configuration is never written *)

Lemma check_failover_config (p : string) (w : LogWatcher) :
  same_config w (exec (check_failover p) w).
Proof.
  unfold exec. rewrite check_failover_eq.
  destruct (last_seen_pool w) as [old|]; [|now repeat split].
  destruct (String.eqb p old); [now repeat split|].
  unfold switched. now destruct (maintenance_mode w); repeat split.
Qed.

Lemma check_error_rate_config (parsed : ParsedEntry) (w : LogWatcher) :
  same_config w (exec (check_error_rate parsed) w).
Proof.
  unfold exec. rewrite check_error_rate_eq. cbn [snd]. cbv zeta.
  now destruct (_ && _ && _); repeat split.
Qed.

(** A run of the ingestion loop leaves the configuration as the
    constructor set it: webhook, threshold, window size, cooldown, maintenance
    flag, primary pool and the capacity of the window. *)
Theorem run_keeps_configuration (arrivals : list (Q * string)) (w : LogWatcher) :
  same_config w (exec (tail_log_file arrivals) w).
Proof.
  revert arrivals w. apply run_preserves.
  - intros w. now repeat split.
  - intros w1 w2 w3 (A1 & A2 & A3 & A4 & A5 & A6 & A7)
                    (B1 & B2 & B3 & B4 & B5 & B6 & B7).
    repeat split; congruence.
  - intros now w. now repeat split.
  - apply check_failover_config.
  - apply check_error_rate_config.
  - intros e w. now repeat split.
Qed.

(** ** Maintenance mode *)

Lemma check_failover_maintenance (p : string) (w : LogWatcher) :
  maintenance_mode w = true ->
  maintenance_mode (exec (check_failover p) w) = true /\
  adds_only (fun e => is_alert e = false) w (exec (check_failover p) w) /\
  last_alert_times (exec (check_failover p) w) = last_alert_times w.
Proof.
  intros Hm. unfold exec. rewrite check_failover_eq.
  destruct (last_seen_pool w) as [old|]; cbn [snd].
  - destruct (String.eqb p old); cbn [snd].
    + split; [assumption|]. split; [apply adds_only_refl | reflexivity].
    + unfold switched. rewrite Hm. cbn.
      split; [assumption|]. split; [|reflexivity].
      eapply adds_only_step; [reflexivity | now repeat constructor].
  - cbn. split; [assumption|]. split; [|reflexivity].
    eapply adds_only_step; [reflexivity | now repeat constructor].
Qed.

Lemma check_error_rate_maintenance (parsed : ParsedEntry) (w : LogWatcher) :
  maintenance_mode w = true ->
  exec (check_error_rate parsed) w = observed parsed w.
Proof.
  intros Hm. unfold exec. rewrite check_error_rate_eq. cbn [snd]. cbv zeta.
  replace (maintenance_mode (observed parsed w)) with true by (symmetry; exact Hm).
  now rewrite andb_false_r.
Qed.

(** In maintenance mode a run sends no alert at all: it adds no alert
    block, no post and no outcome line to the trace, only baseline, suppressed
    failover and parse failure lines, and it leaves the registry of the
    cooldowns as it was. *)
Theorem maintenance_run_sends_nothing
    (arrivals : list (Q * string)) (w : LogWatcher) :
  maintenance_mode w = true ->
  adds_only (fun e => is_alert e = false) w (exec (tail_log_file arrivals) w) /\
  last_alert_times (exec (tail_log_file arrivals) w) = last_alert_times w.
Proof.
  intros Hm.
  enough (maintenance_mode w = true ->
          maintenance_mode (exec (tail_log_file arrivals) w) = true /\
          adds_only (fun e => is_alert e = false) w
            (exec (tail_log_file arrivals) w) /\
          last_alert_times (exec (tail_log_file arrivals) w)
          = last_alert_times w) as H by (now destruct (H Hm) as (_ & ? & ?)).
  clear Hm. revert arrivals w.
  apply (run_preserves (fun w w' =>
           maintenance_mode w = true ->
           maintenance_mode w' = true /\
           adds_only (fun e => is_alert e = false) w w' /\
           last_alert_times w' = last_alert_times w)).
  - intros w Hm. split; [assumption|]. split; [apply adds_only_refl | reflexivity].
  - intros w1 w2 w3 H12 H23 Hm.
    destruct (H12 Hm) as (Hm2 & A12 & L12).
    destruct (H23 Hm2) as (Hm3 & A23 & L23).
    split; [assumption|]. split; [|congruence].
    now apply (adds_only_trans _ w1 w2 w3).
  - intros now w Hm. split; [assumption|].
    split; [now apply adds_only_same_trace | reflexivity].
  - intros p w. apply check_failover_maintenance.
  - intros parsed w Hm. rewrite (check_error_rate_maintenance parsed w Hm).
    split; [assumption|]. split; [now apply adds_only_same_trace | reflexivity].
  - intros e w Hm. split; [assumption|]. split; [|reflexivity].
    eapply adds_only_step; [reflexivity | now repeat constructor].
Qed.

(** Twenty failed requests and a failover in maintenance mode. *)
Lemma maintenance_run_sends_nothing_witness :
  last_alert_times
    (exec (tail_log_file (error_burst 20 ++ failover_burst_start))
       (sample_watcher 200 true))
  = ∅.
Proof.
  apply (maintenance_run_sends_nothing
           (error_burst 20 ++ failover_burst_start) (sample_watcher 200 true)).
  reflexivity.
Defined.

(** ** Where alerts are posted *)

Lemma slack_report_posted_to (w : LogWatcher) (a : alert) (color : string) :
  Forall (posted_to (slack_webhook_url w)) (slack_report w a color).
Proof.
  unfold slack_report.
  destruct (slack_webhook_url w) as [url|]; now repeat constructor.
Qed.

Lemma check_failover_posts (p : string) (w : LogWatcher) :
  slack_webhook_url (exec (check_failover p) w) = slack_webhook_url w /\
  adds_only (posted_to (slack_webhook_url w)) w (exec (check_failover p) w).
Proof.
  split; [apply check_failover_config|].
  unfold exec. rewrite check_failover_eq.
  destruct (last_seen_pool w) as [old|]; cbn [snd].
  - destruct (String.eqb p old); cbn [snd]; [apply adds_only_refl|].
    unfold switched. destruct (maintenance_mode w).
    + eapply adds_only_step; [reflexivity | now repeat constructor].
    + eapply adds_only_step; [reflexivity|].
      apply (slack_report_posted_to (set_last_seen_pool (Some p) w)).
  - eapply adds_only_step; [reflexivity | now repeat constructor].
Qed.

Lemma check_error_rate_posts (parsed : ParsedEntry) (w : LogWatcher) :
  slack_webhook_url (exec (check_error_rate parsed) w) = slack_webhook_url w /\
  adds_only (posted_to (slack_webhook_url w)) w (exec (check_error_rate parsed) w).
Proof.
  split; [apply check_error_rate_config|].
  unfold exec. rewrite check_error_rate_eq. cbn [snd]. cbv zeta.
  destruct (_ && _ && _).
  - eapply adds_only_step; [reflexivity|].
    apply (slack_report_posted_to (observed parsed w)).
  - now apply adds_only_same_trace.
Qed.

(** Every post of a run goes to the configured webhook; a watcher without
    a webhook posts nothing and leaves its alerts on the console only. *)
Theorem posts_go_to_the_webhook (arrivals : list (Q * string)) (w : LogWatcher) :
  adds_only (posted_to (slack_webhook_url w)) w (exec (tail_log_file arrivals) w) /\
  (slack_webhook_url w = None ->
   adds_only (fun e => forall url color a, e <> SlackPost url color a)
     w (exec (tail_log_file arrivals) w)).
Proof.
  assert (adds_only (posted_to (slack_webhook_url w)) w
            (exec (tail_log_file arrivals) w)) as Hposts.
  { enough (slack_webhook_url (exec (tail_log_file arrivals) w)
            = slack_webhook_url w /\
            adds_only (posted_to (slack_webhook_url w)) w
              (exec (tail_log_file arrivals) w)) as H by apply H.
    revert arrivals w.
    apply (run_preserves (fun w w' =>
             slack_webhook_url w' = slack_webhook_url w /\
             adds_only (posted_to (slack_webhook_url w)) w w')).
    - intros w. split; [reflexivity | apply adds_only_refl].
    - intros w1 w2 w3 [U12 A12] [U23 A23]. split; [congruence|].
      rewrite U12 in A23. now apply (adds_only_trans _ w1 w2 w3).
    - intros now w. split; [reflexivity | now apply adds_only_same_trace].
    - apply check_failover_posts.
    - apply check_error_rate_posts.
    - intros e w. split; [reflexivity|].
      eapply adds_only_step; [reflexivity | now repeat constructor]. }
  split; [exact Hposts|].
  intros Hnone. destruct Hposts as (new & Htrace & Hall).
  exists new. split; [assumption|].
  rewrite Hnone in Hall. eapply Forall_impl; [exact Hall|].
  intros e He url color a ->. cbn in He. discriminate.
Qed.

(** ** The keys of the registry *)

Lemma fired_keys (kind : string) (w : LogWatcher) (k : string) :
  is_Some (last_alert_times (fired kind w) !! k) <->
  k = kind \/ is_Some (last_alert_times w !! k).
Proof.
  unfold fired. cbn. rewrite lookup_insert_is_Some.
  split; intros [H | H]; auto.
  - destruct H; auto.
  - destruct (decide (kind = k)); auto.
Qed.

(** The ingestion loop registers timestamps under the keys [failover] and
    [error_rate] only, and never removes a key. *)
Theorem run_registers_two_kinds (arrivals : list (Q * string)) (w : LogWatcher)
    (k : string) :
  (is_Some (last_alert_times w !! k) ->
   is_Some (last_alert_times (exec (tail_log_file arrivals) w) !! k)) /\
  (is_Some (last_alert_times (exec (tail_log_file arrivals) w) !! k) ->
   is_Some (last_alert_times w !! k) \/ k = "failover" \/ k = "error_rate").
Proof.
  revert arrivals w.
  apply (run_preserves (fun w w' =>
           (is_Some (last_alert_times w !! k) ->
            is_Some (last_alert_times w' !! k)) /\
           (is_Some (last_alert_times w' !! k) ->
            is_Some (last_alert_times w !! k) \/
            k = "failover" \/ k = "error_rate"))).
  - intros w. tauto.
  - intros w1 w2 w3 [A1 A2] [B1 B2]. tauto.
  - intros now w. cbn. tauto.
  - intros p w. unfold exec. rewrite check_failover_eq.
    destruct (last_seen_pool w) as [old|]; cbn [snd]; [|cbn; tauto].
    destruct (String.eqb p old); cbn [snd]; [tauto|].
    unfold switched. destruct (maintenance_mode w); [cbn; tauto|].
    rewrite fired_keys. cbn. tauto.
  - intros parsed w. unfold exec. rewrite check_error_rate_eq. cbn [snd]. cbv zeta.
    destruct (_ && _ && _); [|cbn; tauto].
    cbn [last_alert_times set_trace]. rewrite fired_keys. cbn. tauto.
  - intros e w. cbn. tauto.
Qed.

(** ** A window of fewer than ten requests *)

Lemma small_window_never_breached (parsed : ParsedEntry) (w : LogWatcher) :
  small_window w ->
  small_window (observed parsed w) /\ breached (observed parsed w) = false.
Proof.
  intros [Hlen Hcap].
  assert (length (items (request_window (observed parsed w)))
          <= maxlen (request_window w)) as Hlen'
    by (apply deque_append_bounded; exact Hlen).
  split; [split; [exact Hlen' | exact Hcap]|].
  unfold breached, min_requests.
  destruct (Z.leb_spec (Z.max 10 (window_size (observed parsed w) / 10))
              (Z.of_nat (length (items (request_window (observed parsed w))))));
    [lia | reflexivity].
Qed.

(** A watcher built with a window size from 0 to 9 never sends an
    error-rate alert, whatever arrives: the window cannot hold the ten samples
    the check asks for at least.  The trace of a run holds no event of an
    error-rate alert and the key [error_rate] never enters the registry. *)
Theorem small_window_never_alerts (env : Env) (w0 : LogWatcher)
    (arrivals : list (Q * string)) :
  LogWatcher_init env = Ok w0 ->
  (WINDOW_SIZE env < 10)%Z ->
  Forall (fun e => about_error_rate e = false)
    (trace (exec (tail_log_file arrivals) w0)) /\
  last_alert_times (exec (tail_log_file arrivals) w0) !! "error_rate" = None.
Proof.
  intros Hinit Hsmall.
  assert (small_window w0 /\ trace w0 = [] /\ last_alert_times w0 = ∅)
    as (Hw0 & Htrace & Hreg).
  { pose proof (LogWatcher_init_window env w0 Hinit) as Hwin.
    unfold LogWatcher_init, rbind, deque_new in Hinit.
    destruct (_ || _); [discriminate|].
    destruct (Z.ltb_spec (WINDOW_SIZE env) 0); [discriminate|].
    injection Hinit as <-. cbn. repeat split; cbn; lia. }
  enough (small_window w0 ->
          small_window (exec (tail_log_file arrivals) w0) /\
          adds_only (fun e => about_error_rate e = false) w0
            (exec (tail_log_file arrivals) w0) /\
          last_alert_times (exec (tail_log_file arrivals) w0) !! "error_rate"
          = last_alert_times w0 !! "error_rate") as H.
  { destruct (H Hw0) as (_ & (new & Hnew & Hall) & Hkey).
    rewrite Htrace in Hnew. cbn in Hnew. rewrite Hnew, Hkey, Hreg.
    split; [exact Hall | reflexivity]. }
  clear. revert arrivals w0.
  apply (run_preserves (fun w w' =>
           small_window w ->
           small_window w' /\
           adds_only (fun e => about_error_rate e = false) w w' /\
           last_alert_times w' !! "error_rate" = last_alert_times w !! "error_rate")).
  - intros w Hw. split; [assumption|]. split; [apply adds_only_refl | reflexivity].
  - intros w1 w2 w3 H12 H23 Hw.
    destruct (H12 Hw) as (Hw2 & A12 & L12).
    destruct (H23 Hw2) as (Hw3 & A23 & L23).
    split; [assumption|]. split; [|congruence].
    now apply (adds_only_trans _ w1 w2 w3).
  - intros now w Hw. split; [exact Hw|].
    split; [now apply adds_only_same_trace | reflexivity].
  - intros p w Hw. split; [|split].
    + unfold small_window. now rewrite check_failover_window.
    + unfold exec. rewrite check_failover_eq.
      destruct (last_seen_pool w) as [old|]; cbn [snd].
      * destruct (String.eqb p old); cbn [snd]; [apply adds_only_refl|].
        unfold switched. destruct (maintenance_mode w).
        -- eapply adds_only_step; [reflexivity | now repeat constructor].
        -- eapply adds_only_step; [reflexivity|]. unfold slack_report. cbn.
           destruct (slack_webhook_url w); now repeat constructor.
      * eapply adds_only_step; [reflexivity | now repeat constructor].
    + unfold exec. rewrite check_failover_eq.
      destruct (last_seen_pool w) as [old|]; cbn [snd]; [|reflexivity].
      destruct (String.eqb p old); cbn [snd]; [reflexivity|].
      unfold switched. destruct (maintenance_mode w); [reflexivity|].
      cbn. now rewrite lookup_insert_ne.
  - intros parsed w Hw.
    destruct (small_window_never_breached parsed w Hw) as [Hw' Hb].
    unfold exec. rewrite check_error_rate_eq. cbn [snd]. cbv zeta.
    rewrite Hb. cbn [andb].
    split; [exact Hw'|]. split; [now apply adds_only_same_trace | reflexivity].
  - intros e w Hw. split; [exact Hw|]. split; [|reflexivity].
    eapply adds_only_step; [reflexivity | now repeat constructor].
Qed.

Lemma small_window_never_alerts_witness :
  last_alert_times
    (exec (tail_log_file (error_burst 20)) (sample_watcher 9 false))
  !! "error_rate" = None.
Proof.
  apply (small_window_never_alerts (sample_env 9 false) (sample_watcher 9 false)
           (error_burst 20) eq_refl).
  reflexivity.
Defined.

(** ** The tracked pool and the failovers of a run *)

Lemma check_failover_tracks (p : string) (w : LogWatcher) :
  last_seen_pool (exec (check_failover p) w) = Some p.
Proof.
  unfold exec. rewrite check_failover_eq.
  destruct (last_seen_pool w) as [old|] eqn:Hold; [|reflexivity].
  destruct (String.eqb_spec p old) as [-> | Hne]; [exact Hold|].
  unfold switched. now destruct (maintenance_mode w).
Qed.

Lemma check_error_rate_keeps_pool (parsed : ParsedEntry) (w : LogWatcher) :
  last_seen_pool (exec (check_error_rate parsed) w) = last_seen_pool w.
Proof.
  unfold exec. rewrite check_error_rate_eq. cbn [snd]. cbv zeta.
  now destruct (_ && _ && _).
Qed.

Lemma process_line_tracks (line : string) (w : LogWatcher) :
  last_seen_pool (exec (process_line line) w)
  = match counted line with
    | Some entry => Some (default "" (pool entry))
    | None => last_seen_pool w
    end.
Proof.
  unfold exec at 1. rewrite process_line_eq. cbn [snd]. unfold counted.
  destruct (parse_fields line) as [entry|e]; [|reflexivity].
  fold (counted line).
  destruct (pool entry) as [p|]; [|reflexivity].
  destruct (truthy p); [|reflexivity].
  now rewrite check_error_rate_keeps_pool, check_failover_tracks.
Qed.

(** After a run the detector tracks the pool of the last line that
    counted; when no line counted it tracks what it tracked before.  The
    tracked pool, once set, is never unset. *)
Theorem tracked_pool_is_last_counted
    (arrivals : list (Q * string)) (w : LogWatcher) :
  last_seen_pool (exec (tail_log_file arrivals) w)
  = match last (pools (arrivals.*2)) with
    | Some p => Some p
    | None => last_seen_pool w
    end.
Proof.
  revert w. induction arrivals as [|[now line] rest IH]; intros w; [reflexivity|].
  rewrite tail_log_file_cons, IH. cbn [fmap list_fmap snd pools].
  pose proof (process_line_tracks line (set_clock now w)) as Hstep.
  cbn [last_seen_pool set_clock] in Hstep.
  destruct (counted line) as [entry|].
  - rewrite Hstep. destruct (pools (rest.*2)) as [|p ps] eqn:Hps; [reflexivity|].
    rewrite (last_cons (default "" (pool entry))). now destruct (last (p :: ps)).
  - now rewrite Hstep.
Qed.

Lemma failover_reports_app (t1 t2 : list event) :
  failover_reports (t1 ++ t2) = failover_reports t1 + failover_reports t2.
Proof.
  induction t1 as [|e t1 IH]; [reflexivity|].
  cbn [app failover_reports]. rewrite IH. lia.
Qed.

Lemma slack_report_failover_reports (w : LogWatcher) (a : alert) (color : string) :
  failover_reports (slack_report w a color)
  = if is_failover_report (Stdout (AlertBlock a)) then 1 else 0.
Proof.
  unfold slack_report.
  destruct (slack_webhook_url w); cbn [failover_reports is_failover_report]; lia.
Qed.

Lemma check_failover_reports (p : string) (w : LogWatcher) :
  failover_reports (trace (exec (check_failover p) w))
  = failover_reports (trace w) + changes (last_seen_pool w) [p].
Proof.
  unfold exec. rewrite check_failover_eq. cbn [changes].
  destruct (last_seen_pool w) as [old|]; cbn [snd].
  - destruct (String.eqb p old); cbn [snd]; [lia|].
    unfold switched. destruct (maintenance_mode w); cbn [trace set_trace fired
      set_last_alert_times set_last_seen_pool].
    + rewrite failover_reports_app. cbn. lia.
    + rewrite failover_reports_app, slack_report_failover_reports. cbn. lia.
  - cbn [trace set_trace]. rewrite failover_reports_app. cbn. lia.
Qed.

Lemma check_error_rate_reports (parsed : ParsedEntry) (w : LogWatcher) :
  failover_reports (trace (exec (check_error_rate parsed) w))
  = failover_reports (trace w).
Proof.
  unfold exec. rewrite check_error_rate_eq. cbn [snd]. cbv zeta.
  destruct (_ && _ && _); [|reflexivity].
  cbn [trace set_trace]. rewrite failover_reports_app, slack_report_failover_reports.
  cbn. lia.
Qed.

Lemma process_line_reports (line : string) (w : LogWatcher) :
  failover_reports (trace (exec (process_line line) w))
  = failover_reports (trace w)
    + match counted line with
      | Some entry => changes (last_seen_pool w) [default "" (pool entry)]
      | None => 0
      end.
Proof.
  unfold exec at 1. rewrite process_line_eq. cbn [snd]. unfold counted.
  destruct (parse_fields line) as [entry|e].
  - fold (counted line).
    destruct (pool entry) as [p|]; [|lia].
    destruct (truthy p); [|lia].
    now rewrite check_error_rate_reports, check_failover_reports.
  - cbn [trace set_trace]. rewrite failover_reports_app. cbn. lia.
Qed.

(** A run reports one failover for each change of pool along the lines
    that count, and none besides: the number of failover reports it adds to
    the trace, alert blocks or suppressed lines, is the number of changes of
    pool, counted from the pool tracked at the start. *)
Theorem run_reports_each_change (arrivals : list (Q * string)) (w : LogWatcher) :
  failover_reports (trace (exec (tail_log_file arrivals) w))
  = failover_reports (trace w) + changes (last_seen_pool w) (pools (arrivals.*2)).
Proof.
  revert w. induction arrivals as [|[now line] rest IH]; intros w;
    [cbn; lia|].
  rewrite tail_log_file_cons, IH. cbn [fmap list_fmap snd pools].
  pose proof (process_line_tracks line (set_clock now w)) as Htrack.
  pose proof (process_line_reports line (set_clock now w)) as Hcount.
  cbn [last_seen_pool trace set_clock] in Htrack, Hcount.
  rewrite Htrack, Hcount.
  destruct (counted line) as [entry|]; [|lia].
  cbn [changes]. lia.
Qed.

Example mixed_pools_changes :
  changes None ["blue"; "blue"; "green"; "green"; "blue"] = 2.
Proof. reflexivity. Qed.

(** ** The window forgets *)

Lemma samples_app (a b : list string) : samples (a ++ b) = samples a ++ samples b.
Proof.
  induction a as [|line a IH]; [reflexivity|].
  cbn [app samples]. destruct (counted line); now rewrite IH.
Qed.

Lemma last_n_app_ge {A} (n : nat) (l1 l2 : list A) :
  n <= length l2 -> last_n n (l1 ++ l2) = last_n n l2.
Proof.
  intros Hle. unfold last_n. rewrite length_app.
  rewrite drop_app_ge by lia. f_equal. lia.
Qed.

Lemma count_errors_none (window : deque bool) :
  Forall (fun b => b = false) (items window) -> count_errors window = 0.
Proof.
  unfold count_errors. induction 1 as [|b l Hb _ IH]; [reflexivity|].
  subst b. cbn. exact IH.
Qed.

(** Once as many requests as the window holds have counted without an
    error, the window holds no error any more, whatever came before: a burst
    of errors stops weighing on the rate after [capacity] clean samples. *)
Theorem window_forgets (env : Env) (w0 : LogWatcher)
    (earlier later : list (Q * string)) :
  LogWatcher_init env = Ok w0 ->
  Forall (fun b => b = false) (samples (later.*2)) ->
  Z.to_nat (WINDOW_SIZE env) <= length (samples (later.*2)) ->
  Forall (fun b => b = false)
    (items (request_window (exec (tail_log_file (earlier ++ later)) w0))) /\
  count_errors (request_window (exec (tail_log_file (earlier ++ later)) w0)) = 0.
Proof.
  intros Hinit Hclean Hlong.
  apply LogWatcher_init_window in Hinit.
  destruct (tail_log_file_window (earlier ++ later) w0 []) as [_ Hitems].
  { rewrite Hinit. reflexivity. }
  rewrite Hinit in Hitems. cbn [maxlen app] in Hitems.
  rewrite fmap_app, samples_app, last_n_app_ge in Hitems by exact Hlong.
  assert (Forall (fun b => b = false)
            (items (request_window (exec (tail_log_file (earlier ++ later)) w0))))
    as Hall by (rewrite Hitems; unfold last_n; now apply Forall_drop).
  split; [exact Hall | now apply count_errors_none].
Qed.

(** Three failures, then three clean requests, in a window of three. *)
Lemma window_forgets_witness :
  count_errors
    (request_window
       (exec (tail_log_file (error_burst 3 ++ clean_burst 3))
          (sample_watcher 3 false)))
  = 0.
Proof.
  apply (window_forgets (sample_env 3 false) (sample_watcher 3 false)
           (error_burst 3) (clean_burst 3) eq_refl).
  - vm_compute. repeat constructor.
  - vm_compute. lia.
Defined.

(** ** The cooldown between two alerts *)

(** After an attempt of [kind] that succeeded at the clock [t], the next
    attempt of the same kind, made at the clock [later], succeeds exactly when
    [later - t] is at least the cooldown. *)
Theorem cooldown_after_fire (kind : string) (w : LogWatcher) (later : Q) :
  eval (can_send_alert kind) w = true ->
  (eval (can_send_alert kind)
     (set_clock later (exec (can_send_alert kind) w)) = true <->
   (inject_Z (alert_cooldown_sec w) <= later - clock w)%Q).
Proof.
  unfold eval, exec. rewrite !can_send_alert_eq. cbn [fst snd].
  intros Hfired. rewrite Hfired.
  unfold cooled_downb, last_fired, fired. cbn.
  rewrite lookup_insert_eq. cbn. apply Qle_bool_iff.
Qed.

(** The schedule of the specification: fired at 1000 s with a cooldown of
    300 s, suppressed at 1100 s, eligible again at 1301 s. *)
Lemma cooldown_after_fire_witness :
  eval (can_send_alert "error_rate")
    (set_clock 1301
       (exec (can_send_alert "error_rate") (set_clock 1000 cold_watcher)))
  = true.
Proof.
  apply (cooldown_after_fire "error_rate" (set_clock 1000 cold_watcher) 1301).
  - reflexivity.
  - vm_compute. discriminate.
Defined.

Example cooldown_suppresses_at_1100 :
  eval (can_send_alert "error_rate")
    (set_clock 1100
       (exec (can_send_alert "error_rate") (set_clock 1000 cold_watcher)))
  = false.
Proof. reflexivity. Qed.

(** An error-rate alert opens a cooldown for the alerts of its kind: when
    [check_error_rate] has sent an alert at the clock [t], a sample that
    arrives at a clock [later] with [later - t] under the cooldown sends
    nothing and leaves the registry alone, however high the rate is. *)
Theorem error_rate_alert_opens_cooldown (w : LogWatcher)
    (parsed next : ParsedEntry) (later : Q) :
  trace (exec (check_error_rate parsed) w) <> trace w ->
  (later - clock w < inject_Z (alert_cooldown_sec w))%Q ->
  trace (exec (check_error_rate next)
           (set_clock later (exec (check_error_rate parsed) w)))
  = trace (exec (check_error_rate parsed) w) /\
  last_alert_times (exec (check_error_rate next)
                      (set_clock later (exec (check_error_rate parsed) w)))
  = last_alert_times (exec (check_error_rate parsed) w) /\
  last_alert_times (exec (check_error_rate parsed) w) !! "error_rate"
  = Some (clock w).
Proof.
  unfold exec. rewrite (check_error_rate_eq parsed w). cbn [snd]. cbv zeta.
  destruct (breached (observed parsed w)
            && negb (maintenance_mode (observed parsed w))
            && cooled_downb (observed parsed w) "error_rate") eqn:Hsent.
  - intros _ Hsoon. rewrite check_error_rate_eq. cbn [snd]. cbv zeta.
    match goal with
    | |- context [cooled_downb ?s "error_rate"] =>
        assert (cooled_downb s "error_rate" = false) as Hcool
    end.
    { unfold cooled_downb, last_fired, fired, observed. cbn.
      rewrite lookup_insert_eq. cbn.
      destruct (Qle_bool _ _) eqn:Hle; [|reflexivity].
      apply Qle_bool_iff in Hle. exfalso. exact (Qlt_not_le _ _ Hsoon Hle). }
    rewrite Hcool, andb_false_r.
    repeat split. unfold fired, observed. cbn. now rewrite lookup_insert_eq.
  - intros Hchanged. now destruct Hchanged.
Qed.

Lemma error_rate_alert_opens_cooldown_witness :
  trace (exec (check_error_rate failed_entry)
           (set_clock 5100 (exec (check_error_rate failed_entry) (failing_watcher 19))))
  = trace (exec (check_error_rate failed_entry) (failing_watcher 19)).
Proof.
  apply (error_rate_alert_opens_cooldown (failing_watcher 19)
           failed_entry failed_entry 5100).
  - vm_compute. discriminate.
  - vm_compute. reflexivity.
Defined.

(** ** What an error-rate alert reports *)




(** ** The upstream tokens of an entry *)

Lemma parse_fields_upstream_statuses (line : string) (entry : ParsedEntry) :
  parse_fields line = Ok entry ->
  upstream_statuses entry
  = match Re.search_key "upstream_status=" Re.non_space line with
    | Some raw =>
        if truthy raw && negb (String.eqb raw "-") then split_comma raw else []
    | None => []
    end.
Proof.
  unfold parse_fields, rbind.
  destruct (Re.search_status line) as [code|] eqn:Hs.
  - rewrite (int_of_status line code Hs).
    destruct (Re.search_key "request_time=" Re.digit_or_dot line) as [secs|].
    + destruct (float_of_digits_and_dots secs); [|discriminate].
      now intros [= <-].
    + now intros [= <-].
  - destruct (Re.search_key "request_time=" Re.digit_or_dot line) as [secs|].
    + destruct (float_of_digits_and_dots secs); [|discriminate].
      now intros [= <-].
    + now intros [= <-].
Qed.

(** An entry has no upstream token exactly when the field
    [upstream_status=] is absent from the line or holds the dash; it is then
    an error exactly when its final status is from 500 to 599.  Otherwise the
    tokens, joined by commas, are the text of the field. *)
Theorem upstream_tokens_of_entry (line : string) (entry : ParsedEntry) :
  parse_fields line = Ok entry ->
  (upstream_statuses entry = [] <->
   Re.search_key "upstream_status=" Re.non_space line = None \/
   Re.search_key "upstream_status=" Re.non_space line = Some "-") /\
  (upstream_statuses entry = [] ->
   (has_5xx_error entry = true <->
    exists n : Z, final_status entry = Some n /\ (500 <= n < 600)%Z)) /\
  (upstream_statuses entry <> [] ->
   Re.search_key "upstream_status=" Re.non_space line
   = Some (join_comma (upstream_statuses entry))).
Proof.
  intros Hparse. rewrite (parse_fields_upstream_statuses line entry Hparse).
  split; [|split].
  - destruct (Re.search_key "upstream_status=" Re.non_space line) as [raw|] eqn:Hs;
      [|split; [now left | reflexivity]].
    destruct (search_key_group _ _ _ _ Hs) as [Hne _].
    unfold truthy. destruct (String.eqb_spec raw "") as [-> | _]; [congruence|].
    cbn [negb andb].
    destruct (String.eqb_spec raw "-") as [-> | Hdash]; cbn [negb].
    + split; [now right | reflexivity].
    + split.
      * intros Hnil. now destruct (split_comma_nonempty raw).
      * intros [H | H]; congruence.
  - intros Hnil.
    assert (upstream_statuses entry = []) as Hempty
      by (now rewrite (parse_fields_upstream_statuses line entry Hparse)).
    unfold has_5xx_error. rewrite Hempty. cbn [upstream_5xx].
    destruct (final_status entry) as [status|].
    + destruct (negb (status =? 0)%Z && is_5xx status) eqn:Hfinal.
      * split; [intros _ | reflexivity]. exists status.
        apply andb_prop in Hfinal. destruct Hfinal as [_ Hr].
        split; [reflexivity | now apply is_5xx_range].
      * split; [discriminate|]. intros (n & [= <-] & Hr). exfalso.
        apply andb_false_iff in Hfinal. destruct Hfinal as [Hz | Hn].
        -- apply negb_false_iff, Z.eqb_eq in Hz. lia.
        -- apply is_5xx_range in Hr. congruence.
    + split; [discriminate | now intros (n & [=] & _)].
  - destruct (Re.search_key "upstream_status=" Re.non_space line) as [raw|];
      [|congruence].
    destruct (truthy raw && negb (String.eqb raw "-")); [|congruence].
    intros _. now rewrite join_split_comma.
Qed.

Lemma upstream_tokens_of_entry_witness :
  Re.search_key "upstream_status=" Re.non_space (access_line "blue" "200" "502,200")
  = Some (join_comma ["502"; "200"]).
Proof.
  destruct (upstream_tokens_of_entry (access_line "blue" "200" "502,200") _
              (eq_refl : parse_fields (access_line "blue" "200" "502,200") = Ok _))
    as (_ & _ & Hjoin).
  apply Hjoin. discriminate.
Defined.

(** ** The timestamps of the failover and recovery alerts *)

(** A failover that is not suppressed registers the time of its alert
    under the key [failover]; in maintenance mode the registry is left alone.
    No other key is touched either way. *)
Theorem failover_alert_registers_time (w : LogWatcher) (old p : string) :
  last_seen_pool w = Some old -> p <> old ->
  last_alert_times (exec (check_failover p) w) !! "failover"
  = (if maintenance_mode w then last_alert_times w !! "failover"
     else Some (clock w)) /\
  (forall other : string,
      other <> "failover" ->
      last_alert_times (exec (check_failover p) w) !! other
      = last_alert_times w !! other).
Proof.
  intros Hold Hne. unfold exec. rewrite check_failover_eq, Hold.
  rewrite (string_eqb_false _ _ Hne). cbn [snd]. unfold switched.
  destruct (maintenance_mode w); [now split|].
  unfold fired. cbn. rewrite lookup_insert_eq. split; [reflexivity|].
  intros other Hother. now rewrite lookup_insert_ne.
Qed.

Lemma failover_alert_registers_time_witness :
  last_alert_times
    (exec (check_failover "green") (set_clock 1001 cold_watcher)) !! "failover"
  = Some 1001%Q.
Proof.
  apply (failover_alert_registers_time (set_clock 1001 cold_watcher) "blue" "green");
    [reflexivity | discriminate].
Defined.

(** The recovery alert is gated by its cooldown: when [send_recovery_alert]
    has sent its alert at the clock [t], a call at a clock [later] with
    [later - t] under the cooldown changes nothing. *)
Theorem recovery_alert_respects_cooldown (w : LogWatcher) (later : Q) :
  trace (exec send_recovery_alert w) <> trace w ->
  (later - clock w < inject_Z (alert_cooldown_sec w))%Q ->
  exec send_recovery_alert (set_clock later (exec send_recovery_alert w))
  = set_clock later (exec send_recovery_alert w).
Proof.
  unfold exec. rewrite (send_recovery_alert_eq w). cbn [snd].
  destruct (bool_decide (last_seen_pool w = Some (initial_active_pool w))
            && cooled_downb w "recovery") eqn:Hsent;
    [|intros H; now destruct H].
  intros _ Hsoon. rewrite send_recovery_alert_eq. cbn [snd].
  match goal with
  | |- context [cooled_downb ?s "recovery"] =>
      assert (cooled_downb s "recovery" = false) as Hcool
  end.
  { unfold cooled_downb, last_fired, fired. cbn.
    rewrite lookup_insert_eq. cbn.
    destruct (Qle_bool _ _) eqn:Hle; [|reflexivity].
    apply Qle_bool_iff in Hle. exfalso. exact (Qlt_not_le _ _ Hsoon Hle). }
  now rewrite Hcool, andb_false_r.
Qed.

Lemma recovery_alert_respects_cooldown_witness :
  exec send_recovery_alert
    (set_clock 1100 (exec send_recovery_alert (set_clock 1000 cold_watcher)))
  = set_clock 1100 (exec send_recovery_alert (set_clock 1000 cold_watcher)).
Proof.
  apply (recovery_alert_respects_cooldown (set_clock 1000 cold_watcher) 1100).
  - vm_compute. discriminate.
  - vm_compute. reflexivity.
Defined.


(** ** A webhook that is not configured *)

Lemma LogWatcher_init_webhook (env : Env) (w0 : LogWatcher) :
  LogWatcher_init env = Ok w0 ->
  trace w0 = [] /\
  slack_webhook_url w0
  = match SLACK_WEBHOOK_URL env with
    | Some url =>
        if negb (truthy url) || String.eqb url placeholder_webhook
        then None else Some url
    | None => None
    end.
Proof.
  unfold LogWatcher_init, deque_new, rbind.
  destruct (_ || _); [discriminate|].
  destruct (WINDOW_SIZE env <? 0)%Z; [discriminate|].
  now intros [= <-].
Qed.

Lemma run_posts (arrivals : list (Q * string)) (w : LogWatcher) :
  adds_only (posted_to (slack_webhook_url w)) w (exec (tail_log_file arrivals) w).
Proof.
  enough (slack_webhook_url (exec (tail_log_file arrivals) w)
          = slack_webhook_url w /\
          adds_only (posted_to (slack_webhook_url w)) w
            (exec (tail_log_file arrivals) w)) as H by apply H.
  revert arrivals w.
  apply (run_preserves (fun w w' =>
           slack_webhook_url w' = slack_webhook_url w /\
           adds_only (posted_to (slack_webhook_url w)) w w')).
  - intros w. split; [reflexivity | apply adds_only_refl].
  - intros w1 w2 w3 [U12 A12] [U23 A23]. split; [congruence|].
    rewrite U12 in A23. now apply (adds_only_trans _ w1 w2 w3).
  - intros now w. split; [reflexivity | now apply adds_only_same_trace].
  - apply check_failover_posts.
  - apply check_error_rate_posts.
  - intros e w. split; [reflexivity|].
    eapply adds_only_step; [reflexivity | now repeat constructor].
Qed.

(** A watcher built without a webhook, with an empty one, or with the
    placeholder of the sample configuration never posts: whatever arrives, the
    whole trace of its run holds no post.  Built with any other webhook, it
    posts to that address only. *)
Theorem unconfigured_webhook_never_posts (env : Env) (w0 : LogWatcher)
    (arrivals : list (Q * string)) :
  LogWatcher_init env = Ok w0 ->
  (SLACK_WEBHOOK_URL env = None \/
   SLACK_WEBHOOK_URL env = Some "" \/
   SLACK_WEBHOOK_URL env = Some placeholder_webhook ->
   Forall (fun e => forall url color a, e <> SlackPost url color a)
     (trace (exec (tail_log_file arrivals) w0))) /\
  (forall url : string,
      SLACK_WEBHOOK_URL env = Some url ->
      url <> "" -> url <> placeholder_webhook ->
      Forall (posted_to (Some url)) (trace (exec (tail_log_file arrivals) w0))).
Proof.
  intros Hinit.
  destruct (LogWatcher_init_webhook env w0 Hinit) as [Htrace Hurl].
  destruct (run_posts arrivals w0) as (new & Hnew & Hall).
  rewrite Htrace in Hnew. cbn [app] in Hnew. rewrite Hnew. clear Hnew.
  split.
  - intros Hunset.
    assert (slack_webhook_url w0 = None) as Hnone.
    { rewrite Hurl. now destruct Hunset as [-> | [-> | ->]]. }
    rewrite Hnone in Hall. eapply Forall_impl; [exact Hall|].
    intros e He url color a ->. cbn in He. discriminate.
  - intros url Hsome Hne Hplace.
    assert (slack_webhook_url w0 = Some url) as Hset.
    { rewrite Hurl, Hsome. unfold truthy.
      destruct (String.eqb_spec url "") as [-> | _]; [congruence|].
      now destruct (String.eqb_spec url placeholder_webhook) as [-> | _]. }
    now rewrite Hset in Hall.
Qed.

(** Twenty failed requests with the placeholder still in place: the alert
    reaches the console, nothing is posted. *)
Lemma unconfigured_webhook_never_posts_witness :
  Forall (fun e => forall url color a, e <> SlackPost url color a)
    (trace (exec (tail_log_file (error_burst 20)) (sample_watcher 200 false))).
Proof.
  destruct (unconfigured_webhook_never_posts placeholder_env
              (sample_watcher 200 false) (error_burst 20) eq_refl)
    as [Hsilent _].
  apply Hsilent. right. right. reflexivity.
Defined.
